(** * Verification of the composer state transformer

    Source: [src/composer/transformer.ts] ([transformState], [mapMessages]).

    The transformer turns the raw LangChain message history of an agent
    thread into the [ComposerState] snapshot shown by the UI.  The
    embedding below follows the TypeScript code statement by statement:
    JavaScript values that escape the static types through casts
    ([as MessageContentText[]], [//@ts-expect-error]) are kept as run-time
    values ([JsValue]); exceptions are an explicit [Result]. *)

From stdpp Require Import base option list strings gmap fin_maps.
From Stdlib Require Import ZArith NArith Ascii.
From Stdlib.Strings Require Byte.

Local Open Scope string_scope.
Local Open Scope list_scope.

(** ** JavaScript values *)

(** The values that can sit in an [any] / [unknown] slot. *)
#[warnings="-register-all"]
Inductive JsValue : Type :=
| JsUndefined
| JsNull
| JsBoolean (b : bool)
| JsNumber (n : Z)
| JsString (s : string)
| JsArray (items : list JsValue)
| JsObject (props : gmap string JsValue).

(** Truthiness, as used by [!x] and [if (x)]. *)
Definition js_truthy (v : JsValue) : bool :=
  match v with
  | JsUndefined | JsNull => false
  | JsBoolean b => b
  | JsNumber n => negb (n =? 0)%Z
  | JsString s => negb (String.eqb s "")
  | JsArray _ | JsObject _ => true
  end.

(** [v === "lit"] for a string literal. *)
Definition js_is_string (lit : string) (v : JsValue) : bool :=
  match v with
  | JsString s => String.eqb s lit
  | _ => false
  end.

(** ** Exceptions *)

Inductive Exception : Type :=
| TypeError (message : string).

Inductive Result (A : Type) : Type :=
| Ok (value : A)
| Throw (e : Exception).
Arguments Ok {A} value.
Arguments Throw {A} e.

#[global] Instance Result_ret : MRet Result := fun A x => Ok x.
#[global] Instance Result_bind : MBind Result := fun A B f r =>
  match r with
  | Ok x => f x
  | Throw e => Throw e
  end.

(** Property read [o.k] on an object held in a variable: absent
    properties read as [undefined]. *)
Definition js_prop (o : gmap string JsValue) (k : string) : JsValue :=
  default JsUndefined (o !! k).

(** Property read [v.k] on an arbitrary value, for a name [k] that no
    built-in prototype defines (here: [url]).  Reading a property of
    [undefined] or [null] throws; primitives and arrays have no such
    property. *)
Definition js_get (v : JsValue) (k : string) : Result JsValue :=
  match v with
  | JsUndefined => Throw (TypeError ("Cannot read properties of undefined (reading '" +:+ k +:+ "')"))
  | JsNull => Throw (TypeError ("Cannot read properties of null (reading '" +:+ k +:+ "')"))
  | JsObject o => Ok (js_prop o k)
  | _ => Ok JsUndefined
  end.

(** ** Raw agent messages ([@langchain/core/messages]) *)

(** [image_url: string | { url: string; detail?: ImageDetail }] *)
Inductive ImageUrl : Type :=
| ImageUrlString (url : string)
| ImageUrlObject (url : string) (detail : option string).

(** [MessageContentComplex]: a text block, an image block, or any other
    record with an optional [type] tag. *)
Inductive MessageContentComplex : Type :=
| MessageContentText (text : string)
| MessageContentImageUrl (image_url : ImageUrl)
| MessageContentRecord (fields : gmap string JsValue).

Definition image_url_value (u : ImageUrl) : JsValue :=
  match u with
  | ImageUrlString url => JsString url
  | ImageUrlObject url None => JsObject {[ "url" := JsString url ]}
  | ImageUrlObject url (Some d) =>
      JsObject (<[ "url" := JsString url ]> {[ "detail" := JsString d ]})
  end.

(** The run-time object behind a content block. *)
Definition block_fields (c : MessageContentComplex) : gmap string JsValue :=
  match c with
  | MessageContentText text =>
      <[ "type" := JsString "text" ]> {[ "text" := JsString text ]}
  | MessageContentImageUrl u =>
      <[ "type" := JsString "image_url" ]> {[ "image_url" := image_url_value u ]}
  | MessageContentRecord fields => fields
  end.

(** [c.k] *)
Definition block_prop (c : MessageContentComplex) (k : string) : JsValue :=
  js_prop (block_fields c) k.

(** [content: string | MessageContentComplex[]] *)
Inductive MessageContent : Type :=
| ContentString (s : string)
| ContentArray (blocks : list MessageContentComplex).

(** The value seen when [content] is cast to another type. *)
Definition content_value (c : MessageContent) : JsValue :=
  match c with
  | ContentString s => JsString s
  | ContentArray blocks => JsArray (map (fun b => JsObject (block_fields b)) blocks)
  end.

(** The classes [instanceof] can see.  [HumanMessage], [AIMessageChunk]
    and the LangChain [ToolMessage] are the three the transformer tests
    for; the others are the remaining message classes of the framework. *)
Inductive MessageClass : Type :=
| HumanMessage
| AIMessageChunk
| LangChainToolMessage
| AIMessage
| SystemMessage
| HumanMessageChunk
| SystemMessageChunk
| ToolMessageChunk
| FunctionMessage
| ChatMessage
| RemoveMessage.

#[global] Instance MessageClass_eq_dec : EqDecision MessageClass.
Proof. solve_decision. Defined.

(** [ToolCall = { name: string; args: Record<string, any>; id?: string }] *)
Record ToolCall : Type := mkToolCall {
  tc_name : string;
  tc_args : gmap string JsValue;
  tc_id : option string;
}.

(** A raw message object.  Fields a class does not define are [None]
    ([undefined]). *)
Record BaseMessage : Type := mkBaseMessage {
  msg_class : MessageClass;
  msg_id : option string;
  msg_content : MessageContent;
  additional_kwargs : gmap string JsValue;
  msg_name : option string;
  tool_calls : option (list ToolCall);
  tool_call_id : option string;
}.

(** ** Composer messages ([@shared/types/Composer]) *)

Inductive ToolPhase : Type := PhaseStart | PhaseEnd.

Record ImageData : Type := mkImageData {
  data : JsValue;
  ext : string;
}.

(** Modelled from the spec: the classes [UserMessage], [AssistantMessage]
    and [ToolMessage] of [@shared/types/Composer] are not part of the
    sources at hand; their fields are the constructor arguments, in the
    order the transformer passes them. *)
Inductive ComposerMessage : Type :=
| UserMessage (id : option string) (text : JsValue) (image : option ImageData)
| AssistantMessage (id : option string) (text : JsValue)
| ToolMessage (id : option string) (name : option string)
    (toolCallId : option string) (args : JsValue) (phase : ToolPhase)
    (metadata : gmap string JsValue).

(** Modelled from the spec: [GraphStateAnnotation] is declared in
    [src/composer/index.ts], which is not part of the sources at hand; the
    transformer reads these four fields. *)
Record GraphStateAnnotation : Type := mkGraphState {
  messages : list BaseMessage;
  title : option string;
  createdAt : option Z;
  parentThreadId : option string;
}.

(** Modelled from the spec: [ComposerState] of [@shared/types/Composer],
    with the fields of the object literal [transformState] returns.
    [cs_threadId] is an [option] because TypeScript types are erased: a
    caller can pass [undefined] at run time. *)
Record ComposerState : Type := mkComposerState {
  cs_messages : list ComposerMessage;
  cs_threadId : option string;
  cs_canResume : option bool;
  cs_title : option string;
  cs_createdAt : option Z;
  cs_parentThreadId : option string;
}.

(** ** The transformer *)

(** [message instanceof C] *)
Definition instanceof (message : BaseMessage) (C : MessageClass) : bool :=
  bool_decide (msg_class message = C).

(** [for (const x of xs) results.push(f x)] *)
Definition push_each {A B : Type} (f : A -> B) (xs : list A) (results : list B) : list B :=
  fold_left (fun acc x => acc ++ [f x]) xs results.

(** [for (const content of messageContent)
       if (content.type === "text") results.push(new AssistantMessage(id, content.text))] *)
Definition push_text_blocks (id : option string)
    (messageContent : list MessageContentComplex)
    (results : list ComposerMessage) : list ComposerMessage :=
  fold_left
    (fun acc content =>
       if js_is_string "text" (block_prop content "type")
       then acc ++ [AssistantMessage id (block_prop content "text")]
       else acc)
    messageContent results.

(** The callback given to [flatMap] in [mapMessages]. *)
Definition mapMessage (message : BaseMessage) : Result (list ComposerMessage) :=
  if instanceof message HumanMessage
     && negb (js_truthy (js_prop (additional_kwargs message) "temp"))
  then
    match msg_content message with
    | ContentString _ =>
        Throw (TypeError "message.content.find is not a function")
    | ContentArray messageContent =>
        let imageMsg :=
          List.find (fun c => js_is_string "image_url" (block_prop c "type"))
                    messageContent in
        let lastContent := last messageContent in
        text ← match lastContent with
               | None => Throw (TypeError "Cannot read properties of undefined (reading 'text')")
               | Some c => Ok (block_prop c "text")
               end;
        image ← match imageMsg with
                | Some im =>
                    url ← js_get (block_prop im "image_url") "url";
                    mret (Some {| data := url; ext := "image/jpeg" |})
                | None => mret None
                end;
        mret [UserMessage (msg_id message) text image]
    end
  else if instanceof message AIMessageChunk then
    let results : list ComposerMessage := [] in
    let results :=
      match msg_content message with
      | ContentString s =>
          results ++ [AssistantMessage (msg_id message) (JsString s)]
      | ContentArray messageContent =>
          push_text_blocks (msg_id message) messageContent results
      end in
    let results :=
      match tool_calls message with
      | Some ((_ :: _) as calls) =>
          push_each
            (fun toolCall =>
               ToolMessage (msg_id message) (Some (tc_name toolCall))
                 (tc_id toolCall) (JsObject (tc_args toolCall)) PhaseStart
                 (additional_kwargs message))
            calls results
      | _ => results
      end in
    mret results
  else if instanceof message LangChainToolMessage then
    mret [ToolMessage (msg_id message) (msg_name message)
            (tool_call_id message) (content_value (msg_content message))
            PhaseEnd (additional_kwargs message)]
  else mret [].

(** [messages.flatMap(callback)]: the callback runs on each element in
    order and the returned arrays are concatenated; an exception in a
    callback aborts the whole call. *)
Fixpoint flatMap {A B : Type} (f : A -> Result (list B)) (xs : list A)
    : Result (list B) :=
  match xs with
  | [] => mret []
  | x :: rest =>
      ys ← f x;
      zs ← flatMap f rest;
      mret (ys ++ zs)
  end.

Definition mapMessages (messages : list BaseMessage) : Result (list ComposerMessage) :=
  flatMap mapMessage messages.

(** [transformState]: an [async] function; a rejected promise is a
    [Throw].  [workspace] is accepted and not used. *)
Definition transformState (state : GraphStateAnnotation)
    (threadId : option string) (workspace : string)
    (canResume : option bool) : Result ComposerState :=
  messages ← mapMessages (messages state);
  mret {| cs_messages := messages;
          cs_threadId := threadId;
          cs_canResume := canResume;
          cs_title := title state;
          cs_createdAt := createdAt state;
          cs_parentThreadId := parentThreadId state |}.

(** ** Specification-level vocabulary *)

(** A segment of type "text". *)
Definition is_text_block (c : MessageContentComplex) : bool :=
  js_is_string "text" (block_prop c "type").

(** A segment of type "image_url". *)
Definition is_image_block (c : MessageContentComplex) : bool :=
  js_is_string "image_url" (block_prop c "type").

(** The message is flagged transient ([additional_kwargs.temp] is truthy). *)
Definition is_transient (message : BaseMessage) : bool :=
  js_truthy (js_prop (additional_kwargs message) "temp").

(** The text of the last segment of type "text", if there is one. *)
Definition last_text_segment (blocks : list MessageContentComplex) : option JsValue :=
  last (map (fun c => block_prop c "text") (List.filter is_text_block blocks)).

(** The pending tool invocations of a message. *)
Definition pending_tool_calls (message : BaseMessage) : list ToolCall :=
  default [] (tool_calls message).

(** The start notice of one tool invocation of [message]. *)
Definition tool_start (message : BaseMessage) (toolCall : ToolCall) : ComposerMessage :=
  ToolMessage (msg_id message) (Some (tc_name toolCall)) (tc_id toolCall)
    (JsObject (tc_args toolCall)) PhaseStart (additional_kwargs message).

(** The end notice carried by a tool-result message. *)
Definition tool_end (message : BaseMessage) : ComposerMessage :=
  ToolMessage (msg_id message) (msg_name message) (tool_call_id message)
    (content_value (msg_content message)) PhaseEnd (additional_kwargs message).

(** The data URL format [data:<mime>;base64,<payload>]. *)
Definition dataUrl (mime payload : string) : string :=
  "data:" +:+ mime +:+ ";base64," +:+ payload.

(** ** The transformer over a heap

    The same code once more, now with the arrays it touches placed in a
    heap: the caller-owned [state.messages] array lives at a location, and
    the [results] array of the [AIMessageChunk] branch is allocated and
    filled by [push].  This is the model in which "the input history is
    not mutated" can be said. *)

Inductive Cell : Type :=
| RawArray (elems : list BaseMessage)
| ComposerArray (elems : list ComposerMessage).

Definition Eff (A : Type) : Type :=
  gmap nat Cell -> Result A * gmap nat Cell.

#[global] Instance Eff_ret : MRet Eff := fun A x h => (Ok x, h).
#[global] Instance Eff_bind : MBind Eff := fun A B f m h =>
  match m h with
  | (Ok x, h') => f x h'
  | (Throw e, h') => (Throw e, h')
  end.

(** A computation that does not touch the heap. *)
Definition pureM {A : Type} (r : Result A) : Eff A := fun h => (r, h).

(** [const results: ComposerMessage[] = []] *)
Definition new_array : Eff nat := fun h =>
  let l := fresh (dom h) in (Ok l, <[ l := ComposerArray [] ]> h).

(** [results.push(x)] *)
Definition array_push (l : nat) (x : ComposerMessage) : Eff unit := fun h =>
  match h !! l with
  | Some (ComposerArray xs) => (Ok tt, <[ l := ComposerArray (xs ++ [x]) ]> h)
  | _ => (Throw (TypeError "results.push is not a function"), h)
  end.

(** The elements of a [ComposerMessage[]] when it is returned. *)
Definition array_read (l : nat) : Eff (list ComposerMessage) := fun h =>
  match h !! l with
  | Some (ComposerArray xs) => (Ok xs, h)
  | _ => (Throw (TypeError "not a ComposerMessage array"), h)
  end.

(** [messages.length] *)
Definition raw_length (l : nat) : Eff nat := fun h =>
  match h !! l with
  | Some (RawArray xs) => (Ok (length xs), h)
  | _ => (Throw (TypeError "messages.flatMap is not a function"), h)
  end.

(** [messages[i]], [None] for an index that is not present. *)
Definition raw_get (l : nat) (i : nat) : Eff (option BaseMessage) := fun h =>
  match h !! l with
  | Some (RawArray xs) => (Ok (xs !! i), h)
  | _ => (Throw (TypeError "messages.flatMap is not a function"), h)
  end.

(** [for (const x of xs) body(x)] *)
Fixpoint for_each {A : Type} (xs : list A) (body : A -> Eff unit) : Eff unit :=
  match xs with
  | [] => mret tt
  | x :: rest => _ ← body x; for_each rest body
  end.

(** The [flatMap] callback, with [results] in the heap. *)
Definition mapMessageM (message : BaseMessage) : Eff (list ComposerMessage) :=
  if instanceof message HumanMessage
     && negb (js_truthy (js_prop (additional_kwargs message) "temp"))
  then
    match msg_content message with
    | ContentString _ =>
        pureM (Throw (TypeError "message.content.find is not a function"))
    | ContentArray messageContent =>
        let imageMsg :=
          List.find (fun c => js_is_string "image_url" (block_prop c "type"))
                    messageContent in
        let lastContent := last messageContent in
        text ← pureM match lastContent with
               | None => Throw (TypeError "Cannot read properties of undefined (reading 'text')")
               | Some c => Ok (block_prop c "text")
               end;
        image ← pureM match imageMsg with
                | Some im =>
                    url ← js_get (block_prop im "image_url") "url";
                    mret (Some {| data := url; ext := "image/jpeg" |})
                | None => mret None
                end;
        mret [UserMessage (msg_id message) text image]
    end
  else if instanceof message AIMessageChunk then
    results ← new_array;
    _ ← match msg_content message with
        | ContentString s =>
            array_push results (AssistantMessage (msg_id message) (JsString s))
        | ContentArray messageContent =>
            for_each messageContent (fun content =>
              if js_is_string "text" (block_prop content "type")
              then array_push results
                     (AssistantMessage (msg_id message) (block_prop content "text"))
              else mret tt)
        end;
    _ ← match tool_calls message with
        | Some ((_ :: _) as calls) =>
            for_each calls (fun toolCall =>
              array_push results
                (ToolMessage (msg_id message) (Some (tc_name toolCall))
                   (tc_id toolCall) (JsObject (tc_args toolCall)) PhaseStart
                   (additional_kwargs message)))
        | _ => mret tt
        end;
    array_read results
  else if instanceof message LangChainToolMessage then
    mret [ToolMessage (msg_id message) (msg_name message)
            (tool_call_id message) (content_value (msg_content message))
            PhaseEnd (additional_kwargs message)]
  else mret [].

(** [flatMap] reads [messages[i]] afresh at each of the [length] steps
    fixed at the start, and skips indices that are no longer present. *)
Fixpoint flatMapM_from (f : BaseMessage -> Eff (list ComposerMessage))
    (src : nat) (i : nat) (steps : nat) : Eff (list ComposerMessage) :=
  match steps with
  | 0 => mret []
  | S steps' =>
      x ← raw_get src i;
      ys ← match x with
           | Some message => f message
           | None => mret []
           end;
      zs ← flatMapM_from f src (S i) steps';
      mret (ys ++ zs)
  end.

Definition mapMessagesM (src : nat) : Eff (list ComposerMessage) :=
  len ← raw_length src;
  flatMapM_from mapMessageM src 0 len.

(** [transformState] on a state whose [messages] array is at [src]; the
    scalar fields are read from [state]. *)
Definition transformStateM (src : nat) (state : GraphStateAnnotation)
    (threadId : option string) (workspace : string)
    (canResume : option bool) : Eff ComposerState :=
  messages ← mapMessagesM src;
  mret {| cs_messages := messages;
          cs_threadId := threadId;
          cs_canResume := canResume;
          cs_title := title state;
          cs_createdAt := createdAt state;
          cs_parentThreadId := parentThreadId state |}.

(** ** Properties in the words of the specification *)

(** "The Adapter emits exactly one UserMessage whose text field equals the
    text of the last segment of type text in the content list." *)
Definition emits_last_text_segment (message : BaseMessage) : Prop :=
  exists blocks id text image,
    msg_content message = ContentArray blocks /\
    mapMessage message = Ok [UserMessage id text image] /\
    last_text_segment blocks = Some text.

(** "The Adapter attaches to the emitted UserMessage the MIME extension
    declared in the URL." *)
Definition attaches_declared_mime (message : BaseMessage) (mime : string) : Prop :=
  exists id text payload,
    mapMessage message =
    Ok [UserMessage id text (Some {| data := payload; ext := mime |})].

(** "The assembler fails rather than returning a snapshot." *)
Definition assembler_fails (state : GraphStateAnnotation)
    (threadId : option string) (workspace : string) (canResume : option bool) : Prop :=
  exists e, transformState state threadId workspace canResume = Throw e.

(** "The emitted UserMessage's image field carries the undecoded data URL
    string as its data and the constant extension image/jpeg." *)
Definition image_carries_url (message : BaseMessage) (url : string) : Prop :=
  exists id text,
    mapMessage message =
    Ok [UserMessage id text (Some {| data := JsString url; ext := "image/jpeg" |})].

(** What a user message attaches for an image segment: the [url] property
    of its [image_url] object; a bare string has no such property. *)
Definition image_url_data (u : ImageUrl) : JsValue :=
  match u with
  | ImageUrlObject url _ => JsString url
  | ImageUrlString _ => JsUndefined
  end.

(** The segment has an [image_url] property that can be dereferenced. *)
Definition has_image_url (c : MessageContentComplex) : bool :=
  match block_prop c "image_url" with
  | JsUndefined | JsNull => false
  | _ => true
  end.

(** ** Sample messages *)

Module Samples.

Definition png_url : string := dataUrl "image/png" "iVBORw0KGgo=".

Definition user (id : string) (blocks : list MessageContentComplex)
    (kwargs : gmap string JsValue) : BaseMessage :=
  {| msg_class := HumanMessage; msg_id := Some id;
     msg_content := ContentArray blocks; additional_kwargs := kwargs;
     msg_name := None; tool_calls := None; tool_call_id := None |}.

(** The image comes before the text. *)
Definition user_image_then_text : BaseMessage :=
  user "u1" [MessageContentImageUrl (ImageUrlObject png_url None);
             MessageContentText "what is this?"] ∅.

(** The image comes after the text. *)
Definition user_text_then_image : BaseMessage :=
  user "u2" [MessageContentText "what is this?";
             MessageContentImageUrl (ImageUrlObject png_url None)] ∅.

(** The image URL is given as a bare string. *)
Definition user_image_as_string : BaseMessage :=
  user "u3" [MessageContentImageUrl (ImageUrlString png_url);
             MessageContentText "what is this?"] ∅.

(** The content is a plain string. *)
Definition user_plain_string : BaseMessage :=
  {| msg_class := HumanMessage; msg_id := Some "u5";
     msg_content := ContentString "what is this?"; additional_kwargs := ∅;
     msg_name := None; tool_calls := None; tool_call_id := None |}.

(** A segment tagged "image_url" that has no [image_url] property. *)
Definition user_image_without_url : BaseMessage :=
  user "u6" [MessageContentRecord {[ "type" := JsString "image_url" ]};
             MessageContentText "what is this?"] ∅.

Definition user_transient : BaseMessage :=
  user "u4" [MessageContentText "placeholder"] {[ "temp" := JsBoolean true ]}.

(** Text "A", text "B" and one pending call of "search". *)
Definition assistant_search : BaseMessage :=
  {| msg_class := AIMessageChunk; msg_id := Some "a1";
     msg_content := ContentArray [MessageContentText "A"; MessageContentText "B"];
     additional_kwargs := ∅; msg_name := None;
     tool_calls := Some [ {| tc_name := "search";
                             tc_args := {[ "query" := JsString "foo" ]};
                             tc_id := Some "tc1" |} ];
     tool_call_id := None |}.

Definition assistant_hello : BaseMessage :=
  {| msg_class := AIMessageChunk; msg_id := Some "a2";
     msg_content := ContentString "Hello";
     additional_kwargs := ∅; msg_name := None;
     tool_calls := Some []; tool_call_id := None |}.

Definition search_result : BaseMessage :=
  {| msg_class := LangChainToolMessage; msg_id := Some "t1";
     msg_content := ContentString "hits: 3";
     additional_kwargs := ∅; msg_name := Some "search";
     tool_calls := None; tool_call_id := Some "tc1" |}.

Definition system_note : BaseMessage :=
  {| msg_class := SystemMessage; msg_id := Some "s1";
     msg_content := ContentString "You are a helpful assistant.";
     additional_kwargs := ∅; msg_name := None;
     tool_calls := None; tool_call_id := None |}.

Definition history : list BaseMessage :=
  [system_note; user_image_then_text; assistant_search; search_result;
   assistant_hello].

Definition thread (msgs : list BaseMessage) : GraphStateAnnotation :=
  {| messages := msgs; title := Some "Search"; createdAt := Some 1700000000000%Z;
     parentThreadId := None |}.

(** A heap holding [history] at location 7 and somebody else's array at 3. *)
Definition heap : gmap nat Cell :=
  <[ 7 := RawArray history ]>
    {[ 3 := ComposerArray [AssistantMessage (Some "old") (JsString "kept")] ]}.

End Samples.

(** ** Further vocabulary for the transformer *)

(** A message the callback answers with the empty array whatever its
    content: a class it does not test for, or a transient user message. *)
Definition is_dropped (message : BaseMessage) : bool :=
  match msg_class message with
  | HumanMessage => is_transient message
  | AIMessageChunk | LangChainToolMessage => false
  | _ => true
  end.

(** The [id] every composer message carries. *)
Definition composer_id (cm : ComposerMessage) : option string :=
  match cm with
  | UserMessage id _ _ => id
  | AssistantMessage id _ => id
  | ToolMessage id _ _ _ _ _ => id
  end.

(** The raw message class a composer message can come from. *)
Definition origin_class (cm : ComposerMessage) : MessageClass :=
  match cm with
  | UserMessage _ _ _ => HumanMessage
  | AssistantMessage _ _ => AIMessageChunk
  | ToolMessage _ _ _ _ PhaseStart _ => AIMessageChunk
  | ToolMessage _ _ _ _ PhaseEnd _ => LangChainToolMessage
  end.

Definition is_user_message (cm : ComposerMessage) : bool :=
  match cm with UserMessage _ _ _ => true | _ => false end.

Definition is_assistant_message (cm : ComposerMessage) : bool :=
  match cm with AssistantMessage _ _ => true | _ => false end.

Definition is_tool_start (cm : ComposerMessage) : bool :=
  match cm with ToolMessage _ _ _ _ PhaseStart _ => true | _ => false end.

Definition is_tool_end (cm : ComposerMessage) : bool :=
  match cm with ToolMessage _ _ _ _ PhaseEnd _ => true | _ => false end.

(** How many entries of each kind one raw message stands for. *)
Definition user_count (message : BaseMessage) : nat :=
  if instanceof message HumanMessage && negb (is_transient message) then 1 else 0.

Definition assistant_count (message : BaseMessage) : nat :=
  if instanceof message AIMessageChunk then
    match msg_content message with
    | ContentString _ => 1
    | ContentArray blocks => length (List.filter is_text_block blocks)
    end
  else 0.

Definition tool_start_count (message : BaseMessage) : nat :=
  if instanceof message AIMessageChunk
  then length (pending_tool_calls message) else 0.

Definition tool_end_count (message : BaseMessage) : nat :=
  if instanceof message LangChainToolMessage then 1 else 0.

(** The assistant entries of one [AIMessageChunk]. *)
Definition assistant_texts (message : BaseMessage) : list ComposerMessage :=
  match msg_content message with
  | ContentString s => [AssistantMessage (msg_id message) (JsString s)]
  | ContentArray blocks =>
      map (fun c => AssistantMessage (msg_id message) (block_prop c "text"))
          (List.filter is_text_block blocks)
  end.

(** The same thread with another message history. *)
Definition with_messages (state : GraphStateAnnotation)
    (history : list BaseMessage) : GraphStateAnnotation :=
  {| messages := history; title := title state;
     createdAt := createdAt state; parentThreadId := parentThreadId state |}.

(** The shapes of a user message on which the callback raises. *)
Definition user_shape_raises (content : MessageContent) : Prop :=
  match content with
  | ContentString _ => True
  | ContentArray blocks =>
      blocks = [] \/
      exists im, List.find is_image_block blocks = Some im /\
                 has_image_url im = false
  end.

Module TurnSamples.

(** Two images: a PNG first, a GIF after the text. *)
Definition gif_url : string := dataUrl "image/gif" "R0lGODlhAQABAAAAACw=".

Definition user_two_images : BaseMessage :=
  Samples.user "u8"
    [MessageContentText "compare";
     MessageContentImageUrl (ImageUrlObject Samples.png_url None);
     MessageContentImageUrl (ImageUrlObject gif_url (Some "low"));
     MessageContentText "these two"] ∅.

(** An assistant message of the non-chunk class. *)
Definition assistant_full : BaseMessage :=
  {| msg_class := AIMessage; msg_id := Some "a3";
     msg_content := ContentString "Done.";
     additional_kwargs := ∅; msg_name := None;
     tool_calls := Some []; tool_call_id := None |}.

Definition turn_one : list BaseMessage :=
  [Samples.system_note; Samples.user_image_then_text; Samples.assistant_search].

Definition turn_two : list BaseMessage :=
  [Samples.search_result; Samples.user_transient; Samples.assistant_hello].

End TurnSamples.

(** ** The language client ([src/client/index.ts]) *)

(** The glob pattern read from the model's answer in [activate] and
    [updateSettings]:
    [Array.isArray(msg.content)
       ? (msg.content.find((m) => m.type === "text")! as MessageContentText).text
       : msg.content.toString()] *)
Definition textContent (content : MessageContent) : Result JsValue :=
  match content with
  | ContentArray blocks =>
      match List.find (fun m => js_is_string "text" (block_prop m "type")) blocks with
      | Some m => Ok (block_prop m "text")
      | None => Throw (TypeError "Cannot read properties of undefined (reading 'text')")
      end
  | ContentString s => Ok (JsString s)
  end.

(** [s.includes(needle)] *)
Fixpoint includes (s needle : string) : bool :=
  String.prefix needle s ||
  match s with
  | EmptyString => false
  | String _ rest => includes rest needle
  end.

(** [vscode.Position], [vscode.Range] and the fields of
    [vscode.Diagnostic] the client reads. *)
Record Position : Type := mkPosition {
  line : nat;
  character : nat;
}.

Record Range : Type := mkRange {
  range_start : Position;
  range_end : Position;
}.

Record Diagnostic : Type := mkDiagnostic {
  diag_message : string;
  diag_source : option string;
  diag_range : Range;
}.

(** The entries of a [FileDiagnostic] ([@shared/types/Composer]), as the
    object literals of the handler build them. *)
Record DiagnosticEntry : Type := mkDiagnosticEntry {
  entry_message : string;
  entry_start : Position;
  entry_end : Position;
}.

Record FileDiagnostic : Type := mkFileDiagnostic {
  fd_path : string;
  importErrors : list DiagnosticEntry;
  lintErrors : list DiagnosticEntry;
}.

(** [(diag) => diag.message.includes("import") ||
              diag.message.includes("Cannot find module")] *)
Definition is_import_issue (diag : Diagnostic) : bool :=
  includes (diag_message diag) "import" ||
  includes (diag_message diag) "Cannot find module".

(** [diag.source === "lit"]; an absent source equals no literal. *)
Definition source_is (diag : Diagnostic) (lit : string) : bool :=
  match diag_source diag with
  | Some s => String.eqb s lit
  | None => false
  end.

(** [(diag) => diag.source === "eslint" || diag.source === "tslint" ||
              diag.source === "biome" || diag.source === "ts"] *)
Definition is_linting_error (diag : Diagnostic) : bool :=
  source_is diag "eslint" || source_is diag "tslint" ||
  source_is diag "biome" || source_is diag "ts".

(** [(f) => ({ message: f.message,
              start: { line: f.range.start.line, character: f.range.start.character },
              end: { line: f.range.end.line, character: f.range.end.character } })] *)
Definition to_entry (f : Diagnostic) : DiagnosticEntry :=
  {| entry_message := diag_message f;
     entry_start := {| line := line (range_start (diag_range f));
                       character := character (range_start (diag_range f)) |};
     entry_end := {| line := line (range_end (diag_range f));
                     character := character (range_end (diag_range f)) |} |}.

Section FileDiagnostics.

(** The editor's side: the type of URIs, the URI a path resolves to
    ([path.isAbsolute(p) ? Uri.parse(p) : Uri.joinPath(workspaceFolder, p)]),
    [vscode.languages.getDiagnostics] and [vscode.workspace.asRelativePath]. *)
Context {Uri : Type}.
Variable fileUrl : string -> Uri.
Variable getDiagnostics : Uri -> list Diagnostic.
Variable asRelativePath : Uri -> string.

(** One turn of [for (const uri of fileUrls)]: [continue] leaves
    [fileDiagnostics] as it is, otherwise one entry is pushed. *)
Definition diagnostics_step (fileDiagnostics : list FileDiagnostic) (uri : Uri)
    : list FileDiagnostic :=
  let allDiagnostics := getDiagnostics uri in
  let importIssues := List.filter is_import_issue allDiagnostics in
  let lintingErrors := List.filter is_linting_error allDiagnostics in
  if Nat.eqb (length lintingErrors) 0 && Nat.eqb (length importIssues) 0
  then fileDiagnostics
  else fileDiagnostics ++
       [ {| fd_path := asRelativePath uri;
            importErrors := map to_entry importIssues;
            lintErrors := map to_entry lintingErrors |} ].

(** The handler of "wingman/provideFileDiagnostics": the value it
    returns, and the value it posts to the composer web view when there
    is one. *)
Definition provideFileDiagnostics (composerWebView : bool)
    (filePaths : list string) : list FileDiagnostic * option (list FileDiagnostic) :=
  let fileUrls := map fileUrl filePaths in
  let fileDiagnostics := fold_left diagnostics_step fileUrls [] in
  (fileDiagnostics, if composerWebView then Some fileDiagnostics else None).

(** A file has something to report. *)
Definition has_issue (uri : Uri) : bool :=
  existsb is_linting_error (getDiagnostics uri) ||
  existsb is_import_issue (getDiagnostics uri).

End FileDiagnostics.

Module ClientSamples.

Definition at_line (n : nat) : Range :=
  {| range_start := {| line := n; character := 0 |};
     range_end := {| line := n; character := 12 |} |}.

Definition unused_var : Diagnostic :=
  {| diag_message := "'x' is assigned a value but never used.";
     diag_source := Some "eslint"; diag_range := at_line 3 |}.

Definition missing_module : Diagnostic :=
  {| diag_message := "Cannot find module './utils' or its corresponding type declarations.";
     diag_source := Some "ts"; diag_range := at_line 1 |}.

Definition borrow_error : Diagnostic :=
  {| diag_message := "cannot borrow `v` as mutable";
     diag_source := Some "rustc"; diag_range := at_line 9 |}.

Definition spelling : Diagnostic :=
  {| diag_message := "Unknown word."; diag_source := None;
     diag_range := at_line 2 |}.

(** The diagnostics of three files, by path. *)
Definition diagnostics_of (uri : string) : list Diagnostic :=
  if String.eqb uri "/ws/src/a.ts" then [unused_var; missing_module; spelling]
  else if String.eqb uri "/ws/src/b.rs" then [borrow_error]
  else if String.eqb uri "/ws/src/c.ts" then [missing_module]
  else [].

Definition resolve (p : string) : string := "/ws/" +:+ p.

Definition relative (uri : string) : string :=
  String.substring 4 (String.length uri - 4) uri.

(** An answer whose text comes after a reasoning segment. *)
Definition answer_blocks : list MessageContentComplex :=
  [MessageContentRecord {[ "type" := JsString "thinking" ]};
   MessageContentText "src/**/*.ts";
   MessageContentText "ignored"].

End ClientSamples.

(** ** The chat input ([views-ui/src/App/features/Compose/Input/ChatInput.tsx]) *)

(** *** The canvas size of [compressImage] *)

Definition MAX_WIDTH : Z := 1024.
Definition MAX_HEIGHT : Z := 1024.

(** [Math.round(a / b)] for integers [0 <= a] and [0 < b]: the integer
    nearest to the quotient, a tie going up.  The quotients formed below
    are smaller than 1025 and their distance to the nearest tie point
    [k + 1/2], when it is not zero, is at least [1/(2b)]; for image sides
    ([b < 2^32]) this is far above the spacing of doubles in that range,
    so the rounded double falls on the same side of the tie point as the
    exact quotient and [Math.round] of it is this integer. *)
Definition round_div (a b : Z) : Z := (2 * a + b) / (2 * b).

(** [img.width] and [img.height] are [unsigned long] values. *)
Definition is_image_side (n : Z) : Prop := (0 <= n < 2 ^ 32)%Z.

(** The [width] and [height] given to the canvas in [img.onload], from
    [img.width] and [img.height]. *)
Definition canvasSize (img_width img_height : Z) : Z * Z :=
  let width := img_width in
  let height := img_height in
  if (width >? height)%Z then
    if (width >? MAX_WIDTH)%Z
    then (MAX_WIDTH, round_div (height * MAX_WIDTH) width)
    else (width, height)
  else
    if (height >? MAX_HEIGHT)%Z
    then (round_div (width * MAX_HEIGHT) height, MAX_HEIGHT)
    else (width, height).

(** *** [dataUrlToFile] *)

(** [s.split(sep)] for a one-character separator. *)
Fixpoint split (sep : ascii) (s : string) : list string :=
  match s with
  | EmptyString => [EmptyString]
  | String c rest =>
      if Ascii.eqb c sep then EmptyString :: split sep rest
      else match split sep rest with
           | first :: others => String c first :: others
           | [] => [String c EmptyString]
           end
  end.

(** The characters [.] does not match (those below code 256). *)
Definition is_line_terminator (c : ascii) : bool :=
  Ascii.eqb c "010" || Ascii.eqb c "013".

(** [(.*?);] tried at one position: the characters up to the next [;],
    unless a line terminator or the end of the string comes first. *)
Fixpoint lazy_until_semicolon (s : string) : option string :=
  match s with
  | EmptyString => None
  | String c rest =>
      if Ascii.eqb c ";" then Some EmptyString
      else if is_line_terminator c then None
      else String c <$> lazy_until_semicolon rest
  end.

(** [s.match(/:(.*?);/)?.[1]]: capture group 1 of the leftmost match. *)
Fixpoint match_mime (s : string) : option string :=
  match s with
  | EmptyString => None
  | String c rest =>
      if Ascii.eqb c ":" then
        match lazy_until_semicolon rest with
        | Some group => Some group
        | None => match_mime rest
        end
      else match_mime rest
  end.

(** Six bits, the most significant first. *)
Inductive Sextet : Type :=
| mkSextet (b5 b4 b3 b2 b1 b0 : bool).

Definition sextet_value (s : Sextet) : N :=
  let 'mkSextet b5 b4 b3 b2 b1 b0 := s in
  (N.b2n b5 * 32 + N.b2n b4 * 16 + N.b2n b3 * 8 +
   N.b2n b2 * 4 + N.b2n b1 * 2 + N.b2n b0)%N.

Definition sextet_of_value (v : N) : Sextet :=
  mkSextet (N.testbit v 5) (N.testbit v 4) (N.testbit v 3)
           (N.testbit v 2) (N.testbit v 1) (N.testbit v 0).

(** The base64 alphabet: [A-Z], [a-z], [0-9], [+], [/]. *)
Definition char_of_sextet (s : Sextet) : ascii :=
  let v := sextet_value s in
  ascii_of_N (if (v <? 26)%N then v + 65
              else if (v <? 52)%N then v + 71
              else if (v <? 62)%N then v - 4
              else if (v =? 62)%N then 43 else 47)%N.

Definition sextet_of_char (c : ascii) : option Sextet :=
  let n := N_of_ascii c in
  if ((65 <=? n) && (n <=? 90))%N then Some (sextet_of_value (n - 65))
  else if ((97 <=? n) && (n <=? 122))%N then Some (sextet_of_value (n - 71))
  else if ((48 <=? n) && (n <=? 57))%N then Some (sextet_of_value (n + 4))
  else if (n =? 43)%N then Some (sextet_of_value 62)
  else if (n =? 47)%N then Some (sextet_of_value 63)
  else None.

(** ASCII whitespace: TAB, LF, FF, CR and SPACE. *)
Definition is_ascii_whitespace (c : ascii) : bool :=
  let n := N_of_ascii c in
  ((n =? 9) || (n =? 10) || (n =? 12) || (n =? 13) || (n =? 32))%N.

(** The bytes of a run of sextets: each full group of four gives three
    bytes; of a last group of two the last four bits are discarded, of a
    last group of three the last two. *)
Fixpoint decode_sextets (l : list Sextet) : list ascii :=
  match l with
  | mkSextet a5 a4 a3 a2 a1 a0 :: mkSextet b5 b4 b3 b2 b1 b0 ::
    mkSextet c5 c4 c3 c2 c1 c0 :: mkSextet d5 d4 d3 d2 d1 d0 :: rest =>
      Ascii b4 b5 a0 a1 a2 a3 a4 a5 ::
      Ascii c2 c3 c4 c5 b0 b1 b2 b3 ::
      Ascii d0 d1 d2 d3 d4 d5 c0 c1 :: decode_sextets rest
  | [mkSextet a5 a4 a3 a2 a1 a0; mkSextet b5 b4 b3 b2 b1 b0;
     mkSextet c5 c4 c3 c2 c1 c0] =>
      [Ascii b4 b5 a0 a1 a2 a3 a4 a5; Ascii c2 c3 c4 c5 b0 b1 b2 b3]
  | [mkSextet a5 a4 a3 a2 a1 a0; mkSextet b5 b4 b3 b2 b1 b0] =>
      [Ascii b4 b5 a0 a1 a2 a3 a4 a5]
  | _ => []
  end.

(** "If data ends with one or two [=], remove them." *)
Definition strip_padding (data : list ascii) : list ascii :=
  match rev data with
  | c1 :: r1 =>
      if Ascii.eqb c1 "=" then
        match r1 with
        | c2 :: r2 => if Ascii.eqb c2 "=" then rev r2 else rev r1
        | [] => rev r1
        end
      else data
  | [] => data
  end.

(** The forgiving-base64 decoding that [atob] performs; [None] is
    failure. *)
Definition forgiving_base64_decode (data : string) : option string :=
  let data := List.filter (fun c => negb (is_ascii_whitespace c))
                          (String.list_ascii_of_string data) in
  let data := if Nat.eqb (length data mod 4) 0 then strip_padding data else data in
  if Nat.eqb (length data mod 4) 1 then None
  else String.string_of_list_ascii <$> (decode_sextets <$> mapM sextet_of_char data).

(** What a browser call returns or throws. *)
Inductive DomResult (A : Type) : Type :=
| Returned (value : A)
| InvalidCharacterError.
Arguments Returned {A} value.
Arguments InvalidCharacterError {A}.

(** [atob(data)]; an argument that is [undefined] is converted to the
    string "undefined". *)
Definition atob (data : option string) : DomResult string :=
  match forgiving_base64_decode (default "undefined" data) with
  | Some bstr => Returned bstr
  | None => InvalidCharacterError
  end.

(** [s.charCodeAt(i)] as stored in a [Uint8Array]: the code unit, or 0
    for the [NaN] of an index out of range. *)
Definition charCodeAt (s : string) (i : nat) : Byte.byte :=
  match String.get i s with
  | Some c => byte_of_ascii c
  | None => Byte.x00
  end.

(** [while (n--) { u8arr[n] = bstr.charCodeAt(n); }] *)
Fixpoint copy_bytes (n : nat) (bstr : string) (u8arr : list Byte.byte)
    : list Byte.byte :=
  match n with
  | 0 => u8arr
  | S n' => copy_bytes n' bstr (<[ n' := charCodeAt bstr n' ]> u8arr)
  end.

(** The arguments of [new File([u8arr], fileName, { type: mime })]. *)
Record File : Type := mkFile {
  file_bits : list Byte.byte;
  file_name : string;
  file_type : string;
}.

Definition dataUrlToFile (dataUrl fileName : string) : DomResult File :=
  let arr := split "," dataUrl in
  let mime :=
    match match_mime (default EmptyString (arr !! 0)) with
    | Some group => if String.eqb group "" then "image/jpeg" else group
    | None => "image/jpeg"
    end in
  match atob (arr !! 1) with
  | InvalidCharacterError => InvalidCharacterError
  | Returned bstr =>
      let n := String.length bstr in
      let u8arr := replicate n Byte.x00 in
      let u8arr := copy_bytes n bstr u8arr in
      Returned {| file_bits := u8arr; file_name := fileName; file_type := mime |}
  end.

(** *** Base64 as [canvas.toDataURL] writes it (RFC 4648, with padding) *)

Fixpoint encode_sextets (bytes : list ascii) : list Sextet :=
  match bytes with
  | Ascii x0 x1 x2 x3 x4 x5 x6 x7 :: Ascii y0 y1 y2 y3 y4 y5 y6 y7 ::
    Ascii z0 z1 z2 z3 z4 z5 z6 z7 :: rest =>
      mkSextet x7 x6 x5 x4 x3 x2 :: mkSextet x1 x0 y7 y6 y5 y4 ::
      mkSextet y3 y2 y1 y0 z7 z6 :: mkSextet z5 z4 z3 z2 z1 z0 ::
      encode_sextets rest
  | [Ascii x0 x1 x2 x3 x4 x5 x6 x7; Ascii y0 y1 y2 y3 y4 y5 y6 y7] =>
      [mkSextet x7 x6 x5 x4 x3 x2; mkSextet x1 x0 y7 y6 y5 y4;
       mkSextet y3 y2 y1 y0 false false]
  | [Ascii x0 x1 x2 x3 x4 x5 x6 x7] =>
      [mkSextet x7 x6 x5 x4 x3 x2; mkSextet x1 x0 false false false false]
  | [] => []
  end.

Definition base64_padding (n : nat) : list ascii :=
  match n mod 3 with
  | 1 => ["="%char; "="%char]
  | 2 => ["="%char]
  | _ => []
  end.

Definition base64 (bytes : list Byte.byte) : string :=
  String.string_of_list_ascii
    (map char_of_sextet (encode_sextets (map ascii_of_byte bytes)) ++
     base64_padding (length bytes)).

(** A MIME type that survives the trip through a data URL. *)
Definition plain_mime (mime : string) : Prop :=
  mime <> EmptyString /\
  Forall (fun c => c <> ","%char /\ c <> ";"%char /\ is_line_terminator c = false)
         (String.list_ascii_of_string mime).

Module ChatSamples.

Definition png_magic : list Byte.byte :=
  [Byte.x89; Byte.x50; Byte.x4e; Byte.x47; Byte.x0d; Byte.x0a; Byte.x1a; Byte.x0a].

End ChatSamples.

(** *** The key and selection handlers of [ChatInput]

    A handler is a function of the values its closure holds (the props
    and state of the render it belongs to) and of the event; what it does
    is the sequence of calls it makes.  Strings are sequences of code
    units below 256. *)

(** The fields of [FileSearchResult] ([@shared/types/Composer]) that the
    component reads. *)
Record FileSearchResult : Type := mkFileSearchResult {
  fsr_file : string;
  fsr_path : string;
}.

Record KeyboardEvent : Type := mkKeyboardEvent {
  key : string;
  shiftKey : bool;
}.

(** The values a handler sees. *)
Record Render : Type := mkRender {
  loading : bool;
  inputValue : string;
  selectedImage : option File;
  activeFiles : list FileSearchResult;
  allDropdownItems : list FileSearchResult;
  showDropdown : bool;
  focusedDropdownIndex : Z;
  fileInputRef : bool;   (* [fileInputRef.current] is set *)
}.

(** The calls a handler makes. *)
Inductive Call : Type :=
| PreventDefault
| FocusInput
| SetInputValue (value : string)
| SetSelectedImage (image : option File)
| SetImagePreview (preview : option string)
| ClearFileInput
| SetActiveFiles (chips : list FileSearchResult)
| SetShowDropdown (visible : bool)
| SetFocusedDropdownIndex (index : Z)
| UpdateFocusedDropdownIndex (update : Z -> Z)
| OnChatSubmitted (input : string) (contextFiles : list string) (image : option File)
| HandleAutoResize
| FetchFiles (filter : string).

(** White space and line terminators, as [trim] and [\s] see them. *)
Definition is_js_space (c : ascii) : bool :=
  let n := N_of_ascii c in
  ((n =? 9) || (n =? 10) || (n =? 11) || (n =? 12) || (n =? 13) ||
   (n =? 32) || (n =? 160))%N.

Fixpoint drop_spaces (l : list ascii) : list ascii :=
  match l with
  | c :: rest => if is_js_space c then drop_spaces rest else l
  | [] => []
  end.

(** [s.trim()] *)
Definition trim (s : string) : string :=
  String.string_of_list_ascii
    (rev (drop_spaces (rev (drop_spaces (String.list_ascii_of_string s))))).

(** [s.split(/\s+/)] on the characters of [s]; [after_space] says that
    the character before was part of a separator. *)
Fixpoint split_spaces (after_space : bool) (l : list ascii) : list string :=
  match l with
  | [] => [EmptyString]
  | c :: rest =>
      if is_js_space c then
        if after_space then split_spaces true rest
        else EmptyString :: split_spaces true rest
      else
        match split_spaces false rest with
        | first :: others => String c first :: others
        | [] => [String c EmptyString]
        end
  end.

Definition words_of (s : string) : list string :=
  split_spaces false (String.list_ascii_of_string s).

(** [parts.join(" ")] *)
Fixpoint join_space (parts : list string) : string :=
  match parts with
  | [] => EmptyString
  | [p] => p
  | p :: rest => p +:+ " " +:+ join_space rest
  end.

(** [allDropdownItems.filter((d) => !chipMap.has(d.path))] *)
Definition filteredDropDownItems (r : Render) : list FileSearchResult :=
  List.filter
    (fun d => negb (existsb (fun chip => String.eqb (fsr_path chip) (fsr_path d))
                            (activeFiles r)))
    (allDropdownItems r).

(** [items[i]] for a number [i]: [undefined] outside the array. *)
Definition item_at (items : list FileSearchResult) (i : Z) : option FileSearchResult :=
  if (i <? 0)%Z then None else items !! Z.to_nat i.

Definition removeImage (r : Render) : list Call :=
  [SetSelectedImage None; SetImagePreview None] ++
  (if fileInputRef r then [ClearFileInput] else []).

Definition handleDropdownSelect (r : Render) (item : option FileSearchResult)
    : list Call :=
  match item with
  | None => []
  | Some item =>
      (if negb (existsb (fun chip => String.eqb (fsr_path chip) (fsr_path item))
                        (activeFiles r))
       then
         let newChips := activeFiles r ++ [item] in
         let words := removelast (words_of (inputValue r)) in
         [SetActiveFiles newChips;
          SetInputValue (join_space words +:+
                         (if Nat.ltb 0 (length words) then " " else ""))]
       else []) ++
      [SetShowDropdown false; SetFocusedDropdownIndex 0; FocusInput]
  end.

Definition handleUserInput (r : Render) (e : KeyboardEvent) : list Call :=
  if (String.eqb (trim (inputValue r)) "" && negb (bool_decide (is_Some (selectedImage r))))
     || loading r
  then []
  else if String.eqb (key e) "Enter" && negb (shiftKey e) then
    PreventDefault ::
    (if showDropdown r && Nat.ltb 0 (length (filteredDropDownItems r)) then
       handleDropdownSelect r
         (item_at (filteredDropDownItems r) (focusedDropdownIndex r)) ++
       [FocusInput]
     else
       let message :=
         join_space (map (fun chip => "@" +:+ fsr_file chip) (activeFiles r)) +:+
         (if Nat.ltb 0 (length (activeFiles r))
             && negb (String.eqb (inputValue r) "")
          then " " else "") +:+
         inputValue r in
       if negb (String.eqb (trim message) "")
          || bool_decide (is_Some (selectedImage r))
       then
         [OnChatSubmitted (trim (inputValue r))
            (map fsr_path (activeFiles r)) (selectedImage r);
          SetInputValue ""] ++ removeImage r ++ [HandleAutoResize]
       else [])
  else if String.eqb (key e) "ArrowDown" then
    [PreventDefault;
     UpdateFocusedDropdownIndex
       (fun prevIndex =>
          Z.min (prevIndex + 1) (Z.of_nat (length (allDropdownItems r)) - 1))]
  else if String.eqb (key e) "ArrowUp" then
    [PreventDefault;
     UpdateFocusedDropdownIndex (fun prevIndex => Z.max (prevIndex - 1) 0)]
  else [].

(** [handleInputChange] for the new value of the text area. *)
Definition handleInputChange (value : string) : list Call :=
  let lastWord := default EmptyString (last (words_of value)) in
  SetInputValue value ::
  (if String.prefix "@" lastWord
   then [FetchFiles (String.substring 1 (String.length lastWord - 1) lastWord)]
   else [SetShowDropdown false]).

Definition is_submission (c : Call) : bool :=
  match c with OnChatSubmitted _ _ _ => true | _ => false end.

Module InputSamples.

Definition readme : FileSearchResult :=
  {| fsr_file := "README.md"; fsr_path := "/ws/README.md" |}.

Definition main_ts : FileSearchResult :=
  {| fsr_file := "main.ts"; fsr_path := "/ws/src/main.ts" |}.

Definition typing : Render :=
  {| loading := false; inputValue := "  explain @ma";
     selectedImage := None; activeFiles := [readme];
     allDropdownItems := [readme; main_ts]; showDropdown := true;
     focusedDropdownIndex := 0; fileInputRef := true |}.

Definition ready : Render :=
  {| loading := false; inputValue := " explain this ";
     selectedImage := None; activeFiles := [readme];
     allDropdownItems := []; showDropdown := false;
     focusedDropdownIndex := 0; fileInputRef := true |}.

Definition enter : KeyboardEvent := {| key := "Enter"; shiftKey := false |}.

End InputSamples.

(** ** Basic facts *)

Section BlockProps.

Lemma block_type_text (t : string) :
  block_prop (MessageContentText t) "type" = JsString "text".
Proof. reflexivity. Qed.

Lemma block_text_text (t : string) :
  block_prop (MessageContentText t) "text" = JsString t.
Proof. reflexivity. Qed.

Lemma block_type_image (u : ImageUrl) :
  block_prop (MessageContentImageUrl u) "type" = JsString "image_url".
Proof. reflexivity. Qed.

Lemma block_text_image (u : ImageUrl) :
  block_prop (MessageContentImageUrl u) "text" = JsUndefined.
Proof. reflexivity. Qed.

Lemma block_image_url_image (u : ImageUrl) :
  block_prop (MessageContentImageUrl u) "image_url" = image_url_value u.
Proof. reflexivity. Qed.

Lemma is_text_block_text (t : string) : is_text_block (MessageContentText t) = true.
Proof. reflexivity. Qed.

Lemma is_text_block_image (u : ImageUrl) : is_text_block (MessageContentImageUrl u) = false.
Proof. reflexivity. Qed.

Lemma is_image_block_image (u : ImageUrl) : is_image_block (MessageContentImageUrl u) = true.
Proof. reflexivity. Qed.

Lemma image_url_object_url (url : string) (detail : option string) :
  js_get (image_url_value (ImageUrlObject url detail)) "url" = Ok (JsString url).
Proof. destruct detail; reflexivity. Qed.

Lemma image_url_string_url (url : string) :
  js_get (image_url_value (ImageUrlString url)) "url" = Ok JsUndefined.
Proof. reflexivity. Qed.

End BlockProps.

Section Loops.

Lemma push_each_app {A B : Type} (f : A -> B) (xs : list A) (results : list B) :
  push_each f xs results = results ++ map f xs.
Proof.
  unfold push_each. revert results.
  induction xs as [|x xs IH]; intros results; simpl.
  - by rewrite app_nil_r.
  - by rewrite IH, <- app_assoc.
Qed.

Lemma push_text_blocks_app (id : option string)
    (blocks : list MessageContentComplex) (results : list ComposerMessage) :
  push_text_blocks id blocks results =
  results ++ map (fun c => AssistantMessage id (block_prop c "text"))
                 (List.filter is_text_block blocks).
Proof.
  unfold push_text_blocks. revert results.
  induction blocks as [|c blocks IH]; intros results; simpl.
  - by rewrite app_nil_r.
  - rewrite IH. unfold is_text_block at 2.
    destruct (js_is_string "text" (block_prop c "type")); simpl; [|done].
    by rewrite <- app_assoc.
Qed.

End Loops.

(** ** The branches of [mapMessage] *)

Section Branches.

Variable message : BaseMessage.

Lemma mapMessage_assistant :
  msg_class message = AIMessageChunk ->
  mapMessage message =
  Ok (match msg_content message with
      | ContentString s => [AssistantMessage (msg_id message) (JsString s)]
      | ContentArray blocks =>
          map (fun c => AssistantMessage (msg_id message) (block_prop c "text"))
              (List.filter is_text_block blocks)
      end ++ map (tool_start message) (pending_tool_calls message)).
Proof.
  intros Hclass. unfold mapMessage, instanceof, pending_tool_calls.
  rewrite Hclass. simpl. f_equal.
  assert (Hcalls : forall results,
    match tool_calls message with
    | Some ((_ :: _) as calls) => push_each (tool_start message) calls results
    | _ => results
    end = results ++ map (tool_start message) (default [] (tool_calls message))).
  { intros results. destruct (tool_calls message) as [[|tc calls]|]; simpl.
    - by rewrite app_nil_r.
    - apply (push_each_app _ (tc :: calls)).
    - by rewrite app_nil_r. }
  unfold tool_start in *. rewrite Hcalls. f_equal.
  destruct (msg_content message) as [s|blocks]; [done|].
  by rewrite push_text_blocks_app.
Qed.

Lemma mapMessage_tool_result :
  msg_class message = LangChainToolMessage ->
  mapMessage message = Ok [tool_end message].
Proof.
  intros Hclass. unfold mapMessage, instanceof. by rewrite Hclass.
Qed.

(** The image a user message attaches, as a function of its segments. *)
Lemma mapMessage_user (blocks : list MessageContentComplex) :
  msg_class message = HumanMessage ->
  is_transient message = false ->
  msg_content message = ContentArray blocks ->
  mapMessage message =
  (text ← match last blocks with
          | None => Throw (TypeError "Cannot read properties of undefined (reading 'text')")
          | Some c => Ok (block_prop c "text")
          end;
   image ← match List.find is_image_block blocks with
           | Some im =>
               url ← js_get (block_prop im "image_url") "url";
               mret (Some {| data := url; ext := "image/jpeg" |})
           | None => mret None
           end;
   mret [UserMessage (msg_id message) text image]).
Proof.
  intros Hclass Htemp Hcontent. unfold mapMessage, instanceof.
  unfold is_transient in Htemp. by rewrite Hclass, Htemp, Hcontent.
Qed.

End Branches.

(** ** [flatMap] *)

Section FlatMap.

Context {A B : Type} (f : A -> Result (list B)).

Lemma flatMap_cons_Ok (x : A) (xs : list A) (ys zs : list B) :
  f x = Ok ys -> flatMap f xs = Ok zs -> flatMap f (x :: xs) = Ok (ys ++ zs).
Proof. intros Hx Hxs. simpl. by rewrite Hx, Hxs. Qed.

Lemma flatMap_cons_inv (x : A) (xs : list A) (out : list B) :
  flatMap f (x :: xs) = Ok out ->
  exists ys zs, f x = Ok ys /\ flatMap f xs = Ok zs /\ out = ys ++ zs.
Proof.
  simpl. destruct (f x) as [ys|e]; simpl; [|done].
  destruct (flatMap f xs) as [zs|e]; simpl; [|done].
  intros [= <-]. eauto.
Qed.

(** Success of [flatMap] is success on every element, and the result
    is the concatenation of the per-element results, in order. *)
Lemma flatMap_Ok_iff (xs : list A) (out : list B) :
  flatMap f xs = Ok out <->
  exists outs, Forall2 (fun x o => f x = Ok o) xs outs /\ out = concat outs.
Proof.
  revert out. induction xs as [|x xs IH]; intros out; split.
  - intros [= <-]. exists []. split; [constructor | done].
  - intros (outs & Hall & ->). by inversion Hall.
  - intros (ys & zs & Hx & Hxs & ->)%flatMap_cons_inv.
    apply IH in Hxs as (outs & Hall & ->).
    exists (ys :: outs). split; [by constructor | done].
  - intros (outs & Hall & ->). inversion Hall as [|? o ? outs' Hx Hall']; subst.
    simpl concat. apply flatMap_cons_Ok; [done|]. apply IH. eauto.
Qed.

Lemma flatMap_app_inv (xs1 xs2 : list A) (out : list B) :
  flatMap f (xs1 ++ xs2) = Ok out ->
  exists o1 o2, flatMap f xs1 = Ok o1 /\ flatMap f xs2 = Ok o2 /\ out = o1 ++ o2.
Proof.
  revert out. induction xs1 as [|x xs1 IH]; intros out; simpl app.
  - intros Hout. exists [], out. done.
  - intros (ys & zs & Hx & Hrest & ->)%flatMap_cons_inv.
    apply IH in Hrest as (o1 & o2 & H1 & H2 & ->).
    exists (ys ++ o1), o2. split; [by apply flatMap_cons_Ok|].
    split; [done|]. by rewrite app_assoc.
Qed.

Lemma flatMap_nil_results (xs : list A) :
  Forall (fun x => f x = Ok []) xs -> flatMap f xs = Ok [].
Proof.
  induction 1 as [|x xs Hx _ IH]; [done|]. simpl. by rewrite Hx, IH.
Qed.

End FlatMap.

Lemma transformState_Ok_inv (state : GraphStateAnnotation) (threadId : option string)
    (workspace : string) (canResume : option bool) (snapshot : ComposerState) :
  transformState state threadId workspace canResume = Ok snapshot ->
  mapMessages (messages state) = Ok (cs_messages snapshot) /\
  snapshot = {| cs_messages := cs_messages snapshot;
                cs_threadId := threadId;
                cs_canResume := canResume;
                cs_title := title state;
                cs_createdAt := createdAt state;
                cs_parentThreadId := parentThreadId state |}.
Proof.
  unfold transformState.
  destruct (mapMessages (messages state)) as [msgs|e]; simpl; [|done].
  intros [= <-]. done.
Qed.

Lemma transformState_Ok (state : GraphStateAnnotation) (threadId : option string)
    (workspace : string) (canResume : option bool) (msgs : list ComposerMessage) :
  mapMessages (messages state) = Ok msgs ->
  transformState state threadId workspace canResume =
  Ok {| cs_messages := msgs;
        cs_threadId := threadId;
        cs_canResume := canResume;
        cs_title := title state;
        cs_createdAt := createdAt state;
        cs_parentThreadId := parentThreadId state |}.
Proof. intros Hmsgs. unfold transformState. by rewrite Hmsgs. Qed.

Lemma transformState_Throw (state : GraphStateAnnotation) (threadId : option string)
    (workspace : string) (canResume : option bool) (e : Exception) :
  mapMessages (messages state) = Throw e ->
  transformState state threadId workspace canResume = Throw e.
Proof. intros Hmsgs. unfold transformState. by rewrite Hmsgs. Qed.

(** ** User messages *)

Section UserMessages.

Variable message : BaseMessage.
Hypothesis Hclass : msg_class message = HumanMessage.
Hypothesis Hkept : is_transient message = false.

Lemma find_Some_last {X : Type} (p : X -> bool) (l : list X) (x : X) :
  List.find p l = Some x -> exists y, last l = Some y.
Proof.
  destruct l as [|a l]; [done|]. intros _.
  destruct (last (a :: l)) as [y|] eqn:E; [eauto|].
  by apply last_None in E.
Qed.

(** With an image segment whose [image_url.url] can be read, that value
    and the fixed extension are attached. *)
Lemma mapMessage_user_image (blocks : list MessageContentComplex)
    (im : MessageContentComplex) (url : JsValue) :
  msg_content message = ContentArray blocks ->
  List.find is_image_block blocks = Some im ->
  js_get (block_prop im "image_url") "url" = Ok url ->
  exists text,
    mapMessage message =
    Ok [UserMessage (msg_id message) text
          (Some {| data := url; ext := "image/jpeg" |})].
Proof using Hclass Hkept.
  intros Hcontent Hfind Hurl.
  rewrite (mapMessage_user _ blocks) by done.
  destruct (find_Some_last _ _ _ Hfind) as [c ->].
  rewrite Hfind, Hurl. simpl. eauto.
Qed.

Lemma mapMessage_user_last (blocks : list MessageContentComplex)
    (c : MessageContentComplex) :
  msg_content message = ContentArray (blocks ++ [c]) ->
  (forall im, List.find is_image_block (blocks ++ [c]) = Some im ->
              has_image_url im = true) ->
  exists image,
    mapMessage message =
    Ok [UserMessage (msg_id message) (block_prop c "text") image].
Proof using Hclass Hkept.
  intros Hcontent Himage.
  rewrite (mapMessage_user _ (blocks ++ [c])) by done.
  rewrite last_snoc. simpl.
  destruct (List.find is_image_block (blocks ++ [c])) as [im|] eqn:Hfind;
    [|simpl; eauto].
  specialize (Himage im eq_refl). unfold has_image_url in Himage.
  destruct (block_prop im "image_url"); try done; simpl; eauto.
Qed.

End UserMessages.

Lemma last_text_segment_snoc (blocks : list MessageContentComplex)
    (c : MessageContentComplex) :
  is_text_block c = true ->
  last_text_segment (blocks ++ [c]) = Some (block_prop c "text").
Proof.
  intros Htext. unfold last_text_segment.
  rewrite List.filter_app. cbn [List.filter]. rewrite Htext.
  rewrite map_app. cbn [map]. by rewrite last_snoc.
Qed.

(** The input shapes on which the user branch raises: string content (no
    [find] method), an empty segment list (no last segment), and an image
    segment without [image_url]. *)
Example user_plain_string_throws :
  mapMessage Samples.user_plain_string =
  Throw (TypeError "message.content.find is not a function").
Proof. reflexivity. Qed.

Example user_no_segment_throws :
  mapMessage (Samples.user "u7" [] ∅) =
  Throw (TypeError "Cannot read properties of undefined (reading 'text')").
Proof. reflexivity. Qed.

Example user_image_without_url_throws :
  mapMessage Samples.user_image_without_url =
  Throw (TypeError "Cannot read properties of undefined (reading 'url')").
Proof. reflexivity. Qed.

(** One raising message makes the whole assembly fail. *)
Example assembly_fails_with_adapter :
  transformState (Samples.thread [Samples.assistant_hello; Samples.user_plain_string])
    (Some "thread-1") "workspace" None =
  Throw (TypeError "message.content.find is not a function").
Proof. reflexivity. Qed.

(** An empty history gives an empty transcript. *)
Example empty_history_snapshot :
  transformState
    {| messages := []; title := None; createdAt := None;
       parentThreadId := Some "thread-0" |}
    (Some "thread-1") "workspace" None =
  Ok {| cs_messages := []; cs_threadId := Some "thread-1"; cs_canResume := None;
        cs_title := None; cs_createdAt := None;
        cs_parentThreadId := Some "thread-0" |}.
Proof. reflexivity. Qed.

(** ** The adapter, message by message *)

(** C1, as stated, fails: when an image segment follows the text segment,
    the emitted text is the [text] property of that image segment
    ([undefined]), not the text of the last segment of type "text". *)
Lemma last_text_segment_not_emitted :
  msg_class Samples.user_text_then_image = HumanMessage /\
  is_transient Samples.user_text_then_image = false /\
  ~ emits_last_text_segment Samples.user_text_then_image.
Proof.
  split; [reflexivity|]. split; [reflexivity|].
  intros (blocks & id & text & image & Hcontent & Hmap & Hlast).
  injection Hcontent as <-.
  assert (Hrun : exists img,
    mapMessage Samples.user_text_then_image =
    Ok [UserMessage (Some "u2") JsUndefined img]) by (eexists; reflexivity).
  destruct Hrun as [img Hrun]. rewrite Hrun in Hmap.
  injection Hmap as <- <- <-.
  vm_compute in Hlast. discriminate.
Qed.

(** C1 (amended): a user message that is not transient and whose content
    is a segment list ending in [c] (any image segment having an
    [image_url] property) yields exactly one UserMessage, and its text is
    the [text] property of the last segment [c]; this is the text of the
    last segment of type "text" whenever [c] is of type "text". *)
Theorem user_text_is_last_segment_text (message : BaseMessage)
    (blocks : list MessageContentComplex) (c : MessageContentComplex) :
  msg_class message = HumanMessage ->
  is_transient message = false ->
  msg_content message = ContentArray (blocks ++ [c]) ->
  (forall im, List.find is_image_block (blocks ++ [c]) = Some im ->
              has_image_url im = true) ->
  (exists image,
     mapMessage message =
     Ok [UserMessage (msg_id message) (block_prop c "text") image]) /\
  (is_text_block c = true ->
   last_text_segment (blocks ++ [c]) = Some (block_prop c "text")).
Proof.
  intros Hclass Hkept Hcontent Himage. split.
  - by apply (mapMessage_user_last message Hclass Hkept blocks c).
  - apply last_text_segment_snoc.
Qed.

(** [user_text_is_last_segment_text] on the sample messages. *)
Lemma user_text_is_last_segment_text_witness :
  (exists image,
     mapMessage Samples.user_image_then_text =
     Ok [UserMessage (Some "u1") (JsString "what is this?") image]) /\
  (is_text_block (MessageContentText "what is this?") = true ->
   last_text_segment
     ([MessageContentImageUrl (ImageUrlObject Samples.png_url None)] ++
      [MessageContentText "what is this?"]) = Some (JsString "what is this?")).
Proof.
  apply (user_text_is_last_segment_text Samples.user_image_then_text
           [MessageContentImageUrl (ImageUrlObject Samples.png_url None)]
           (MessageContentText "what is this?")).
  - reflexivity.
  - reflexivity.
  - reflexivity.
  - intros im Hfind. vm_compute in Hfind. injection Hfind as <-. reflexivity.
Defined.

(** C2, as stated, fails: for an image declared as image/png the emitted
    extension is not image/png. *)
Lemma declared_mime_not_attached :
  msg_class Samples.user_image_then_text = HumanMessage /\
  List.find is_image_block
    [MessageContentImageUrl (ImageUrlObject (dataUrl "image/png" "iVBORw0KGgo=") None);
     MessageContentText "what is this?"] =
  Some (MessageContentImageUrl
          (ImageUrlObject (dataUrl "image/png" "iVBORw0KGgo=") None)) /\
  ~ attaches_declared_mime Samples.user_image_then_text "image/png".
Proof.
  split; [reflexivity|]. split; [reflexivity|].
  intros (id & text & payload & Hmap).
  assert (Hrun : exists txt dat,
    mapMessage Samples.user_image_then_text =
    Ok [UserMessage (Some "u1") txt (Some {| data := dat; ext := "image/jpeg" |})])
    by (do 2 eexists; reflexivity).
  destruct Hrun as (txt & dat & Hrun). rewrite Hrun in Hmap.
  discriminate Hmap.
Qed.

(** C2 (amended): for a user message that is not transient and whose
    first image segment holds, in the [url] property of its [image_url]
    object, a data URL [data:<mime>;base64,<payload>], the adapter does
    not decode the URL: the emitted UserMessage carries the URL string
    itself, unchanged, as [data], with the fixed extension "image/jpeg".
    The declared MIME type is attached as the extension exactly when it
    is image/jpeg. *)
Theorem data_url_passed_through (message : BaseMessage)
    (blocks : list MessageContentComplex) (mime payload : string)
    (detail : option string) :
  msg_class message = HumanMessage ->
  is_transient message = false ->
  msg_content message = ContentArray blocks ->
  List.find is_image_block blocks =
    Some (MessageContentImageUrl (ImageUrlObject (dataUrl mime payload) detail)) ->
  (exists text,
     mapMessage message =
     Ok [UserMessage (msg_id message) text
           (Some {| data := JsString (dataUrl mime payload);
                    ext := "image/jpeg" |})]) /\
  (attaches_declared_mime message mime <-> mime = "image/jpeg").
Proof.
  intros Hclass Hkept Hcontent Hfind.
  destruct (mapMessage_user_image message Hclass Hkept blocks _
              (JsString (dataUrl mime payload)) Hcontent Hfind)
    as [text Hmap].
  { rewrite block_image_url_image. apply image_url_object_url. }
  split; [eauto|]. split.
  - intros (id & text' & bytes & Hmap'). rewrite Hmap in Hmap'.
    injection Hmap' as _ _ _ Hext. by symmetry.
  - intros ->. unfold attaches_declared_mime. eauto.
Qed.

(** [data_url_passed_through] on the sample messages. *)
Lemma data_url_passed_through_witness :
  (exists text,
     mapMessage Samples.user_image_then_text =
     Ok [UserMessage (Some "u1") text
           (Some {| data := JsString (dataUrl "image/png" "iVBORw0KGgo=");
                    ext := "image/jpeg" |})]) /\
  (attaches_declared_mime Samples.user_image_then_text "image/png" <->
   "image/png" = "image/jpeg").
Proof.
  apply (data_url_passed_through Samples.user_image_then_text
           [MessageContentImageUrl (ImageUrlObject Samples.png_url None);
            MessageContentText "what is this?"]
           "image/png" "iVBORw0KGgo=" None); reflexivity.
Defined.

(** C10, as stated, fails: when the image segment gives its URL as a bare
    string, the emitted [data] is [undefined], not the URL. *)
Lemma bare_string_url_not_carried :
  msg_class Samples.user_image_as_string = HumanMessage /\
  is_transient Samples.user_image_as_string = false /\
  List.find is_image_block
    [MessageContentImageUrl (ImageUrlString Samples.png_url);
     MessageContentText "what is this?"] =
  Some (MessageContentImageUrl (ImageUrlString Samples.png_url)) /\
  ~ image_carries_url Samples.user_image_as_string Samples.png_url.
Proof.
  split; [reflexivity|]. split; [reflexivity|]. split; [reflexivity|].
  intros (id & text & Hmap).
  assert (Hrun : exists txt,
    mapMessage Samples.user_image_as_string =
    Ok [UserMessage (Some "u3") txt
          (Some {| data := JsUndefined; ext := "image/jpeg" |})])
    by (eexists; reflexivity).
  destruct Hrun as (txt & Hrun). rewrite Hrun in Hmap.
  discriminate Hmap.
Qed.

(** C10 (amended): for a user message that is not transient and whose
    first image segment is [{type: "image_url", image_url: u}], the
    emitted UserMessage's image field carries, undecoded, the [url]
    property of [u] as its data (the URL string when [u] is an object
    [{url}], [undefined] when [u] is a bare string) and the constant
    extension "image/jpeg", whatever MIME type the URL declares. *)
Theorem user_image_is_url_property (message : BaseMessage)
    (blocks : list MessageContentComplex) (u : ImageUrl) :
  msg_class message = HumanMessage ->
  is_transient message = false ->
  msg_content message = ContentArray blocks ->
  List.find is_image_block blocks = Some (MessageContentImageUrl u) ->
  exists text,
    mapMessage message =
    Ok [UserMessage (msg_id message) text
          (Some {| data := image_url_data u; ext := "image/jpeg" |})].
Proof.
  intros Hclass Hkept Hcontent Hfind.
  apply (mapMessage_user_image message Hclass Hkept blocks
           (MessageContentImageUrl u)); [done..|].
  rewrite block_image_url_image.
  destruct u as [url|url detail]; simpl image_url_data.
  - apply image_url_string_url.
  - apply image_url_object_url.
Qed.

(** [user_image_is_url_property] on the sample messages. *)
Lemma user_image_is_url_property_witness :
  exists text,
    mapMessage Samples.user_text_then_image =
    Ok [UserMessage (Some "u2") text
          (Some {| data := JsString Samples.png_url; ext := "image/jpeg" |})].
Proof.
  apply (user_image_is_url_property Samples.user_text_then_image
           [MessageContentText "what is this?";
            MessageContentImageUrl (ImageUrlObject Samples.png_url None)]
           (ImageUrlObject Samples.png_url None)); reflexivity.
Defined.

(** C8: a user message flagged transient contributes no canonical
    message. *)
Theorem transient_user_contributes_nothing (message : BaseMessage) :
  msg_class message = HumanMessage ->
  is_transient message = true ->
  mapMessage message = Ok [].
Proof.
  intros Hclass Htemp. unfold mapMessage, instanceof.
  unfold is_transient in Htemp. by rewrite Hclass, Htemp.
Qed.

(** [transient_user_contributes_nothing] on the sample messages. *)
Lemma transient_user_contributes_nothing_witness :
  mapMessage Samples.user_transient = Ok [].
Proof.
  apply (transient_user_contributes_nothing Samples.user_transient); reflexivity.
Defined.

(** C9: a raw message that is neither a [HumanMessage], an
    [AIMessageChunk] nor a tool result contributes the empty sequence,
    and no exception is raised. *)
Theorem unknown_kind_contributes_nothing (message : BaseMessage) :
  msg_class message <> HumanMessage ->
  msg_class message <> AIMessageChunk ->
  msg_class message <> LangChainToolMessage ->
  mapMessage message = Ok [].
Proof.
  intros Hhuman Hassistant Htool. unfold mapMessage, instanceof.
  rewrite !bool_decide_eq_false_2 by done. done.
Qed.

(** [unknown_kind_contributes_nothing] on the sample messages. *)
Lemma unknown_kind_contributes_nothing_witness :
  mapMessage Samples.system_note = Ok [].
Proof.
  apply (unknown_kind_contributes_nothing Samples.system_note); discriminate.
Defined.

(** C4: an assistant message yields, in this order: for string content
    one AssistantMessage with that string, for a segment list one
    AssistantMessage per segment of type "text" (in order, the others
    skipped); then one ToolMessage with phase start per pending tool
    invocation, carrying the invocation's name, id and arguments and the
    message's [additional_kwargs]. *)
Theorem assistant_message_fans_out (message : BaseMessage) :
  msg_class message = AIMessageChunk ->
  mapMessage message =
  Ok (match msg_content message with
      | ContentString s => [AssistantMessage (msg_id message) (JsString s)]
      | ContentArray blocks =>
          map (fun c => AssistantMessage (msg_id message) (block_prop c "text"))
              (List.filter is_text_block blocks)
      end ++
      map (fun toolCall =>
             ToolMessage (msg_id message) (Some (tc_name toolCall))
               (tc_id toolCall) (JsObject (tc_args toolCall)) PhaseStart
               (additional_kwargs message))
          (pending_tool_calls message)).
Proof. apply mapMessage_assistant. Qed.

(** [assistant_message_fans_out] on the sample messages. *)
Lemma assistant_message_fans_out_witness :
  mapMessage Samples.assistant_search =
  Ok [AssistantMessage (Some "a1") (JsString "A");
      AssistantMessage (Some "a1") (JsString "B");
      ToolMessage (Some "a1") (Some "search") (Some "tc1")
        (JsObject {[ "query" := JsString "foo" ]}) PhaseStart ∅].
Proof.
  apply (assistant_message_fans_out Samples.assistant_search). reflexivity.
Defined.

(** C5: a tool-result message yields exactly one ToolMessage with phase
    end; its toolName and toolCallId are the message's [name] and
    [tool_call_id], and its argument field is the message's content. *)
Theorem tool_result_yields_end (message : BaseMessage) :
  msg_class message = LangChainToolMessage ->
  mapMessage message =
  Ok [ToolMessage (msg_id message) (msg_name message) (tool_call_id message)
        (content_value (msg_content message)) PhaseEnd
        (additional_kwargs message)].
Proof. apply mapMessage_tool_result. Qed.

(** [tool_result_yields_end] on the sample messages. *)
Lemma tool_result_yields_end_witness :
  mapMessage Samples.search_result =
  Ok [ToolMessage (Some "t1") (Some "search") (Some "tc1")
        (JsString "hits: 3") PhaseEnd ∅].
Proof.
  apply (tool_result_yields_end Samples.search_result). reflexivity.
Defined.

(** ** The assembler *)

(** C3, as stated, fails: called without a threadId ([undefined], or the
    empty string), the assembler returns a snapshot. *)
Lemma missing_threadId_not_rejected :
  ~ assembler_fails (Samples.thread Samples.history) None "workspace" None /\
  ~ assembler_fails (Samples.thread Samples.history) (Some "") "workspace" None.
Proof.
  split; intros [e He].
  - assert (Hrun : exists snapshot,
      transformState (Samples.thread Samples.history) None "workspace" None =
      Ok snapshot) by (eexists; reflexivity).
    destruct Hrun as [snapshot Hrun]. rewrite Hrun in He. discriminate He.
  - assert (Hrun : exists snapshot,
      transformState (Samples.thread Samples.history) (Some "") "workspace" None =
      Ok snapshot) by (eexists; reflexivity).
    destruct Hrun as [snapshot Hrun]. rewrite Hrun in He. discriminate He.
Qed.

(** C3 (amended): the assembler does not inspect the threadId.  For every
    threadId argument, a missing one included, it returns a snapshot
    carrying that argument unchanged whenever the adapter accepts every
    raw message, and it fails only with the error the adapter raised. *)
Theorem assembler_does_not_check_threadId (state : GraphStateAnnotation)
    (threadId : option string) (workspace : string) (canResume : option bool) :
  (forall msgs,
     mapMessages (messages state) = Ok msgs ->
     transformState state threadId workspace canResume =
     Ok {| cs_messages := msgs;
           cs_threadId := threadId;
           cs_canResume := canResume;
           cs_title := title state;
           cs_createdAt := createdAt state;
           cs_parentThreadId := parentThreadId state |}) /\
  (forall e,
     transformState state threadId workspace canResume = Throw e <->
     mapMessages (messages state) = Throw e).
Proof.
  split.
  - intros msgs. apply transformState_Ok.
  - intros e. split; [|apply transformState_Throw].
    unfold transformState.
    destruct (mapMessages (messages state)) as [msgs|e']; simpl; [done|].
    by intros [= ->].
Qed.

(** [assembler_does_not_check_threadId] on the sample messages. *)
Lemma assembler_does_not_check_threadId_witness :
  transformState (Samples.thread [Samples.assistant_hello]) None "workspace" None =
  Ok {| cs_messages := [AssistantMessage (Some "a2") (JsString "Hello")];
        cs_threadId := None;
        cs_canResume := None;
        cs_title := Some "Search";
        cs_createdAt := Some 1700000000000%Z;
        cs_parentThreadId := None |}.
Proof.
  apply (proj1 (assembler_does_not_check_threadId
                  (Samples.thread [Samples.assistant_hello]) None "workspace" None)).
  reflexivity.
Defined.

(** C6: the snapshot's message sequence is the concatenation, in history
    order, of what the adapter emits for each raw message; so when an
    assistant message carrying a tool invocation comes before the tool
    result with the same toolCallId, the start ToolMessage comes before
    the end ToolMessage in the snapshot. *)
Theorem snapshot_keeps_emission_order (state : GraphStateAnnotation)
    (threadId : option string) (workspace : string) (canResume : option bool) :
  (forall snapshot,
     transformState state threadId workspace canResume = Ok snapshot <->
     exists outs,
       Forall2 (fun message out => mapMessage message = Ok out)
               (messages state) outs /\
       snapshot = {| cs_messages := concat outs;
                     cs_threadId := threadId;
                     cs_canResume := canResume;
                     cs_title := title state;
                     cs_createdAt := createdAt state;
                     cs_parentThreadId := parentThreadId state |}) /\
  (forall snapshot before ai between result after toolCall,
     transformState state threadId workspace canResume = Ok snapshot ->
     messages state = before ++ ai :: between ++ result :: after ->
     msg_class ai = AIMessageChunk ->
     toolCall ∈ pending_tool_calls ai ->
     msg_class result = LangChainToolMessage ->
     tool_call_id result = tc_id toolCall ->
     exists pre mid post,
       cs_messages snapshot =
       pre ++
       ToolMessage (msg_id ai) (Some (tc_name toolCall)) (tc_id toolCall)
         (JsObject (tc_args toolCall)) PhaseStart (additional_kwargs ai)
       :: mid ++
       ToolMessage (msg_id result) (msg_name result) (tc_id toolCall)
         (content_value (msg_content result)) PhaseEnd
         (additional_kwargs result)
       :: post).
Proof.
  split.
  - intros snapshot. split.
    + intros [Hmap Hsnap]%transformState_Ok_inv.
      apply flatMap_Ok_iff in Hmap as (outs & Hall & Hout).
      exists outs. split; [done|]. by rewrite <- Hout.
    + intros (outs & Hall & ->). apply transformState_Ok.
      apply flatMap_Ok_iff. eauto.
  - intros snapshot before ai between result after toolCall
           [Hmap _]%transformState_Ok_inv Hsplit Hai Hcall Hresult Hid.
    unfold mapMessages in Hmap. rewrite Hsplit in Hmap.
    apply flatMap_app_inv in Hmap as (o1 & rest & _ & Hrest & ->).
    apply flatMap_cons_inv in Hrest as (oa & rest' & Hoa & Hrest' & ->).
    apply flatMap_app_inv in Hrest' as (o2 & rest'' & _ & Hrest'' & ->).
    apply flatMap_cons_inv in Hrest'' as (oe & o3 & Hoe & _ & ->).
    rewrite mapMessage_assistant in Hoa by done.
    rewrite mapMessage_tool_result in Hoe by done.
    injection Hoa as <-. injection Hoe as <-.
    apply list_elem_of_split in Hcall as (c1 & c2 & ->).
    rewrite map_app. simpl map.
    set (texts := match msg_content ai with
                  | ContentString s => _
                  | ContentArray blocks => _
                  end).
    exists (o1 ++ texts ++ map (tool_start ai) c1),
           (map (tool_start ai) c2 ++ o2), o3.
    unfold tool_end, tool_start. rewrite Hid.
    by rewrite <- !app_assoc.
Qed.

(** [snapshot_keeps_emission_order] on the sample messages. *)
Lemma snapshot_keeps_emission_order_witness :
  exists snapshot,
    transformState (Samples.thread Samples.history) (Some "thread-1")
      "workspace" (Some true) = Ok snapshot /\
    exists pre mid post,
      cs_messages snapshot =
      pre ++
      ToolMessage (Some "a1") (Some "search") (Some "tc1")
        (JsObject {[ "query" := JsString "foo" ]}) PhaseStart ∅
      :: mid ++
      ToolMessage (Some "t1") (Some "search") (Some "tc1")
        (JsString "hits: 3") PhaseEnd ∅
      :: post.
Proof.
  eexists. split; [reflexivity|].
  exact (proj2 (snapshot_keeps_emission_order
                  (Samples.thread Samples.history) (Some "thread-1")
                  "workspace" (Some true))
           _ [Samples.system_note; Samples.user_image_then_text]
           Samples.assistant_search [] Samples.search_result
           [Samples.assistant_hello]
           {| tc_name := "search";
              tc_args := {[ "query" := JsString "foo" ]};
              tc_id := Some "tc1" |}
           eq_refl eq_refl eq_refl
           (list_elem_of_here _ _) eq_refl eq_refl).
Defined.

(** ** The transformer over a heap: what it writes *)

Section HeapRuns.

Implicit Types h : gmap nat Cell.

Lemma bind_run {A B : Type} (m : Eff A) (k : A -> Eff B) h :
  (m ≫= k) h =
  match m h with
  | (Ok x, h') => k x h'
  | (Throw e, h') => (Throw e, h')
  end.
Proof. reflexivity. Qed.

Lemma bind_pure_run {A B : Type} (r : Result A) (k : A -> Eff B) h :
  (pureM r ≫= k) h =
  match r with
  | Ok x => k x h
  | Throw e => (Throw e, h)
  end.
Proof. rewrite bind_run. unfold pureM. by destruct r. Qed.

(** A loop that pushes [g x] for the elements [x] passing [p] appends
    exactly those to the array. *)
Lemma for_each_push_run {A : Type} (p : A -> bool) (g : A -> ComposerMessage)
    (l : nat) (xs : list A) (results : list ComposerMessage) h :
  h !! l = Some (ComposerArray results) ->
  for_each xs (fun x => if p x then array_push l (g x) else mret tt) h =
  (Ok tt, <[ l := ComposerArray (results ++ map g (List.filter p xs)) ]> h).
Proof.
  revert results h. induction xs as [|x xs IH]; intros results h Hl.
  - simpl. rewrite app_nil_r, insert_id by done. reflexivity.
  - cbn [for_each List.filter]. rewrite bind_run.
    destruct (p x).
    + unfold array_push at 1. rewrite Hl.
      rewrite (IH (results ++ [g x])) by apply lookup_insert_eq.
      rewrite insert_insert_eq. simpl map. by rewrite <- app_assoc.
    + change ((mret tt : Eff unit) h) with (Ok tt, h). by apply IH.
Qed.

Lemma for_each_push_all_run {A : Type} (g : A -> ComposerMessage)
    (l : nat) (xs : list A) (results : list ComposerMessage) h :
  h !! l = Some (ComposerArray results) ->
  for_each xs (fun x => array_push l (g x)) h =
  (Ok tt, <[ l := ComposerArray (results ++ map g xs) ]> h).
Proof.
  intros Hl.
  assert (Hall : List.filter (fun _ : A => true) xs = xs).
  { induction xs as [|x xs IH]; simpl; congruence. }
  rewrite <- Hall at 2.
  exact (for_each_push_run (fun _ => true) g l xs results h Hl).
Qed.

Lemma fresh_insert_subseteq h (c : Cell) :
  h ⊆ <[ fresh (dom h) := c ]> h.
Proof.
  apply insert_subseteq, not_elem_of_dom, is_fresh.
Qed.

(** On a heap, the callback computes what [mapMessage] computes, and
    every array that was in the heap before is still there, unchanged. *)
Lemma mapMessageM_run (message : BaseMessage) h :
  exists h', mapMessageM message h = (mapMessage message, h') /\ h ⊆ h'.
Proof.
  unfold mapMessageM, mapMessage.
  destruct (instanceof message HumanMessage
            && negb (js_truthy (js_prop (additional_kwargs message) "temp"))).
  { exists h. split; [|done].
    destruct (msg_content message) as [s|blocks]; [done|].
    rewrite bind_pure_run.
    destruct (last blocks) as [c|]; [|done]. simpl.
    rewrite bind_pure_run.
    destruct (List.find _ blocks) as [im|]; [|done].
    by destruct (js_get (block_prop im "image_url") "url"). }
  destruct (instanceof message AIMessageChunk).
  2: { exists h. by destruct (instanceof message LangChainToolMessage). }
  set (l := fresh (dom h)).
  set (texts := match msg_content message with
                | ContentString s =>
                    [] ++ [AssistantMessage (msg_id message) (JsString s)]
                | ContentArray blocks =>
                    push_text_blocks (msg_id message) blocks []
                end).
  set (start := fun toolCall : ToolCall =>
                  ToolMessage (msg_id message) (Some (tc_name toolCall))
                    (tc_id toolCall) (JsObject (tc_args toolCall)) PhaseStart
                    (additional_kwargs message)).
  set (out := match tool_calls message with
              | Some ((_ :: _) as calls) => push_each start calls texts
              | _ => texts
              end).
  exists (<[ l := ComposerArray out ]> h).
  split; [|apply fresh_insert_subseteq].
  rewrite bind_run. unfold new_array at 1. fold l.
  rewrite bind_run.
  assert (Htexts :
    match msg_content message with
    | ContentString s =>
        array_push l (AssistantMessage (msg_id message) (JsString s))
    | ContentArray messageContent =>
        for_each messageContent (fun content =>
          if js_is_string "text" (block_prop content "type")
          then array_push l
                 (AssistantMessage (msg_id message) (block_prop content "text"))
          else mret tt)
    end (<[ l := ComposerArray [] ]> h)
    = (Ok tt, <[ l := ComposerArray texts ]> h)).
  { subst texts. destruct (msg_content message) as [s|blocks].
    - unfold array_push. rewrite lookup_insert_eq.
      by rewrite insert_insert_eq.
    - rewrite (for_each_push_run _
                 (fun c => AssistantMessage (msg_id message) (block_prop c "text"))
                 l blocks []) by apply lookup_insert_eq.
      by rewrite insert_insert_eq, push_text_blocks_app. }
  rewrite Htexts, bind_run.
  assert (Hcalls :
    match tool_calls message with
    | Some ((_ :: _) as calls) =>
        for_each calls (fun toolCall => array_push l (start toolCall))
    | _ => mret tt
    end (<[ l := ComposerArray texts ]> h)
    = (Ok tt, <[ l := ComposerArray out ]> h)).
  { subst out. destruct (tool_calls message) as [[|tc calls]|]; [done| |done].
    rewrite (for_each_push_all_run start l (tc :: calls) texts)
      by apply lookup_insert_eq.
    by rewrite insert_insert_eq, push_each_app. }
  subst start. rewrite Hcalls.
  unfold array_read. by rewrite lookup_insert_eq.
Qed.

Lemma flatMapM_from_run (src : nat) (history : list BaseMessage)
    (steps i : nat) h :
  h !! src = Some (RawArray history) ->
  i + steps = length history ->
  exists h',
    flatMapM_from mapMessageM src i steps h =
    (flatMap mapMessage (drop i history), h') /\ h ⊆ h'.
Proof.
  revert i h. induction steps as [|steps IH]; intros i h Hsrc Hlen.
  - exists h. split; [|done]. simpl.
    by rewrite drop_ge by lia.
  - destruct (lookup_lt_is_Some_2 history i) as [message Hi]; [lia|].
    rewrite (drop_S _ _ _ Hi). cbn [flatMapM_from flatMap].
    rewrite bind_run. unfold raw_get at 1. rewrite Hsrc, Hi.
    rewrite bind_run.
    destruct (mapMessageM_run message h) as (h1 & -> & Hsub1).
    destruct (mapMessage message) as [ys|e]; [|by exists h1].
    destruct (IH (S i) h1) as (h2 & Hrest & Hsub2);
      [by eapply lookup_weaken | lia |].
    exists h2. split; [|by etrans].
    rewrite bind_run, Hrest. simpl.
    by destruct (flatMap mapMessage (drop (S i) history)).
Qed.

Lemma mapMessagesM_run (src : nat) (history : list BaseMessage) h :
  h !! src = Some (RawArray history) ->
  exists h', mapMessagesM src h = (mapMessages history, h') /\ h ⊆ h'.
Proof.
  intros Hsrc. unfold mapMessagesM. rewrite bind_run.
  unfold raw_length at 1. rewrite Hsrc.
  by apply (flatMapM_from_run src history (length history) 0 h).
Qed.

Lemma transformStateM_run (src : nat) (state : GraphStateAnnotation)
    (threadId : option string) (workspace : string) (canResume : option bool) h :
  h !! src = Some (RawArray (messages state)) ->
  exists h',
    transformStateM src state threadId workspace canResume h =
    (transformState state threadId workspace canResume, h') /\ h ⊆ h'.
Proof.
  intros Hsrc. unfold transformStateM, transformState.
  destruct (mapMessagesM_run src _ h Hsrc) as (h' & Hrun & Hsub).
  exists h'. split; [|done]. rewrite bind_run, Hrun.
  by destruct (mapMessages (messages state)).
Qed.

End HeapRuns.

(** C7: run on a heap that holds the history at [src], the assembler
    returns the value of the function [transformState] of its arguments
    and leaves every array that was in the heap, the history among them,
    as it was; assembling again afterwards returns the identical
    result. *)
Theorem assembler_is_pure (h : gmap nat Cell) (src : nat)
    (state : GraphStateAnnotation) (threadId : option string)
    (workspace : string) (canResume : option bool) :
  h !! src = Some (RawArray (messages state)) ->
  exists h' h'',
    transformStateM src state threadId workspace canResume h =
      (transformState state threadId workspace canResume, h') /\
    (forall l cell, h !! l = Some cell -> h' !! l = Some cell) /\
    h' !! src = Some (RawArray (messages state)) /\
    transformStateM src state threadId workspace canResume h' =
      (transformState state threadId workspace canResume, h'') /\
    h'' !! src = Some (RawArray (messages state)).
Proof.
  intros Hsrc.
  destruct (transformStateM_run src state threadId workspace canResume h Hsrc)
    as (h' & Hrun & Hsub).
  assert (Hsrc' : h' !! src = Some (RawArray (messages state)))
    by (by eapply lookup_weaken).
  destruct (transformStateM_run src state threadId workspace canResume h' Hsrc')
    as (h'' & Hrun' & Hsub').
  exists h', h''. repeat split; try done.
  - intros l cell Hl. by eapply lookup_weaken.
  - by eapply lookup_weaken.
Qed.

(** [assembler_is_pure] on the sample messages. *)
Lemma assembler_is_pure_witness :
  exists h' h'',
    transformStateM 7 (Samples.thread Samples.history) (Some "thread-1")
      "workspace" (Some true) Samples.heap =
      (transformState (Samples.thread Samples.history) (Some "thread-1")
         "workspace" (Some true), h') /\
    (forall l cell, Samples.heap !! l = Some cell -> h' !! l = Some cell) /\
    h' !! 7 = Some (RawArray Samples.history) /\
    transformStateM 7 (Samples.thread Samples.history) (Some "thread-1")
      "workspace" (Some true) h' =
      (transformState (Samples.thread Samples.history) (Some "thread-1")
         "workspace" (Some true), h'') /\
    h'' !! 7 = Some (RawArray Samples.history).
Proof.
  apply (assembler_is_pure Samples.heap 7 (Samples.thread Samples.history)
           (Some "thread-1") "workspace" (Some true)).
  reflexivity.
Defined.

(** * Further properties of the transformer *)

(** ** What one raw message can turn into *)

Section Shapes.

Variable message : BaseMessage.

Lemma is_dropped_Ok_nil :
  is_dropped message = true -> mapMessage message = Ok [].
Proof.
  unfold is_dropped, mapMessage, instanceof, is_transient.
  destruct (msg_class message); try done.
  intros ->. done.
Qed.

Lemma is_dropped_false :
  is_dropped message = false ->
  (msg_class message = HumanMessage /\ is_transient message = false) \/
  msg_class message = AIMessageChunk \/
  msg_class message = LangChainToolMessage.
Proof.
  unfold is_dropped. destruct (msg_class message); try done; eauto.
Qed.

(** Every successful run of the callback falls in one of four shapes. *)
Lemma mapMessage_Ok_shape (out : list ComposerMessage) :
  mapMessage message = Ok out ->
  (msg_class message = HumanMessage /\ is_transient message = false /\
   exists text image, out = [UserMessage (msg_id message) text image]) \/
  (msg_class message = AIMessageChunk /\
   out = assistant_texts message ++
         map (tool_start message) (pending_tool_calls message)) \/
  (msg_class message = LangChainToolMessage /\ out = [tool_end message]) \/
  (is_dropped message = true /\ out = []).
Proof.
  intros Hout.
  destruct (is_dropped message) eqn:Hdrop.
  { rewrite is_dropped_Ok_nil in Hout by done. injection Hout as <-. eauto 6. }
  destruct (is_dropped_false Hdrop) as [[Hclass Hkept]|[Hclass|Hclass]].
  - left. split; [done|]. split; [done|].
    destruct (msg_content message) as [s|blocks] eqn:Hcontent.
    + unfold mapMessage, instanceof in Hout. unfold is_transient in Hkept.
      by rewrite Hclass, Hkept, Hcontent in Hout.
    + rewrite (mapMessage_user _ blocks) in Hout by done.
      destruct (last blocks) as [c|]; [|done]. simpl in Hout.
      destruct (List.find is_image_block blocks) as [im|]; simpl in Hout.
      * destruct (js_get (block_prop im "image_url") "url"); [|done].
        injection Hout as <-. eauto.
      * injection Hout as <-. eauto.
  - right; left. split; [done|].
    rewrite mapMessage_assistant in Hout by done. by injection Hout as <-.
  - right; right; left. split; [done|].
    rewrite mapMessage_tool_result in Hout by done. by injection Hout as <-.
Qed.

End Shapes.

Section ResultMonad.

Context {A B : Type} (f : A -> Result (list B)).

(** [flatMap] over a concatenation, errors included. *)
Lemma flatMap_app (xs ys : list A) :
  flatMap f (xs ++ ys) =
  (a ← flatMap f xs; b ← flatMap f ys; mret (a ++ b)).
Proof.
  induction xs as [|x xs IH]; simpl.
  - by destruct (flatMap f ys).
  - destruct (f x) as [out|e]; simpl; [|done]. rewrite IH.
    destruct (flatMap f xs) as [a|e]; simpl; [|done].
    destruct (flatMap f ys) as [b|e]; simpl; [|done].
    by rewrite app_assoc.
Qed.

End ResultMonad.

Section ListFacts.

Context {A B : Type}.

Lemma filter_map_none (p : B -> bool) (g : A -> B) (l : list A) :
  (forall x, p (g x) = false) -> List.filter p (map g l) = [].
Proof.
  intros Hp. induction l as [|x l IH]; simpl; [done|]. by rewrite Hp.
Qed.

Lemma filter_map_all (p : B -> bool) (g : A -> B) (l : list A) :
  (forall x, p (g x) = true) -> List.filter p (map g l) = map g l.
Proof.
  intros Hp. induction l as [|x l IH]; simpl; [done|]. by rewrite Hp, IH.
Qed.

Lemma find_app_first (p : A -> bool) (pre rest : list A) (x : A) :
  Forall (fun y => p y = false) pre -> p x = true ->
  List.find p (pre ++ x :: rest) = Some x.
Proof.
  intros Hpre Hx. induction Hpre as [|y pre Hy _ IH]; simpl.
  - by rewrite Hx.
  - by rewrite Hy.
Qed.

Lemma sum_indicator (p : A -> bool) (l : list A) :
  sum_list_with (fun x => if p x then 1 else 0) l = length (List.filter p l).
Proof.
  induction l as [|x l IH]; simpl; [done|].
  destruct (p x); simpl; lia.
Qed.

End ListFacts.

(** A count that holds message by message holds for the history. *)
Lemma census (p : ComposerMessage -> bool) (g : BaseMessage -> nat) :
  (forall message out,
     mapMessage message = Ok out -> length (List.filter p out) = g message) ->
  forall history out,
    mapMessages history = Ok out ->
    length (List.filter p out) = sum_list_with g history.
Proof.
  intros Hone. unfold mapMessages.
  induction history as [|m history IH]; intros out.
  - by intros [= <-].
  - intros (ys & zs & Hm & Hrest & ->)%flatMap_cons_inv.
    rewrite List.filter_app, length_app. simpl.
    by rewrite (Hone m ys Hm), (IH zs Hrest).
Qed.

Section Counts.

Variables (message : BaseMessage) (out : list ComposerMessage).
Hypothesis Hout : mapMessage message = Ok out.

Ltac shape_cases :=
  destruct (mapMessage_Ok_shape message out Hout)
    as [(Hclass & Hkept & text & image & ->)
       |[(Hclass & ->)|[(Hclass & ->)|(Hdrop & ->)]]].

Ltac dropped_class Hdrop :=
  unfold is_dropped in Hdrop; unfold instanceof;
  destruct (msg_class message) eqn:Hclass; try done.

Lemma tool_end_count_ok :
  length (List.filter is_tool_end out) = tool_end_count message.
Proof using Hout.
  unfold tool_end_count. shape_cases.
  - unfold instanceof. by rewrite Hclass.
  - unfold instanceof. rewrite Hclass, List.filter_app. simpl.
    rewrite (filter_map_none _ (tool_start message)) by done.
    unfold assistant_texts. destruct (msg_content message); [done|].
    by rewrite filter_map_none.
  - unfold instanceof. by rewrite Hclass.
  - by dropped_class Hdrop.
Qed.

Lemma tool_start_count_ok :
  length (List.filter is_tool_start out) = tool_start_count message.
Proof using Hout.
  unfold tool_start_count. shape_cases.
  - unfold instanceof. by rewrite Hclass.
  - unfold instanceof. rewrite Hclass, List.filter_app, length_app. simpl.
    rewrite (filter_map_all _ (tool_start message)) by done.
    rewrite length_map.
    unfold assistant_texts. destruct (msg_content message); [done|].
    by rewrite filter_map_none.
  - unfold instanceof. by rewrite Hclass.
  - by dropped_class Hdrop.
Qed.

Lemma assistant_count_ok :
  length (List.filter is_assistant_message out) = assistant_count message.
Proof using Hout.
  unfold assistant_count. shape_cases.
  - unfold instanceof. by rewrite Hclass.
  - unfold instanceof. rewrite Hclass, List.filter_app, length_app. simpl.
    rewrite (filter_map_none _ (tool_start message)) by done.
    unfold assistant_texts. destruct (msg_content message); [done|].
    rewrite filter_map_all by done. rewrite length_map. simpl. lia.
  - unfold instanceof. by rewrite Hclass.
  - by dropped_class Hdrop.
Qed.

Lemma user_count_ok :
  length (List.filter is_user_message out) = user_count message.
Proof using Hout.
  unfold user_count. shape_cases.
  - unfold instanceof. by rewrite Hclass, Hkept.
  - unfold instanceof. rewrite Hclass, List.filter_app, length_app. simpl.
    rewrite (filter_map_none _ (tool_start message)) by done.
    unfold assistant_texts. destruct (msg_content message); [done|].
    by rewrite filter_map_none.
  - unfold instanceof. by rewrite Hclass.
  - dropped_class Hdrop. by rewrite Hdrop.
Qed.

(** Nothing in the output names another message or another kind. *)
Lemma mapMessage_ids (cm : ComposerMessage) :
  cm ∈ out ->
  composer_id cm = msg_id message /\ msg_class message = origin_class cm.
Proof using Hout.
  shape_cases.
  - by intros ->%list_elem_of_singleton.
  - intros [Hin|Hin]%elem_of_app.
    + unfold assistant_texts in Hin.
      destruct (msg_content message).
      * by apply list_elem_of_singleton in Hin as ->.
      * by apply list_elem_of_fmap in Hin as (c & -> & _).
    + by apply list_elem_of_fmap in Hin as (tc & -> & _).
  - by intros ->%list_elem_of_singleton.
  - by intros ?%elem_of_nil.
Qed.

End Counts.

(** ** Histories *)

(** X1: mapping a concatenated history is mapping the two parts and
    concatenating the results; an exception raised in the first part is
    the exception of the whole, otherwise one raised in the second. *)
Theorem mapMessages_app (before after : list BaseMessage) :
  mapMessages (before ++ after) =
  match mapMessages before with
  | Throw e => Throw e
  | Ok a =>
      match mapMessages after with
      | Throw e => Throw e
      | Ok b => Ok (a ++ b)
      end
  end.
Proof.
  unfold mapMessages. rewrite flatMap_app.
  destruct (flatMap mapMessage before) as [a|e]; simpl; [|done].
  by destruct (flatMap mapMessage after).
Qed.

(** X2: when the snapshot of a history extended by further raw messages
    exists, so does the snapshot of the history itself, and the longer
    snapshot is the shorter one followed by what the adapter emits for
    the further messages: a transcript only grows at its end. *)
Theorem snapshot_grows_by_appending (state : GraphStateAnnotation)
    (more : list BaseMessage) (threadId : option string) (workspace : string)
    (canResume : option bool) (longer : ComposerState) :
  transformState (with_messages state (messages state ++ more))
    threadId workspace canResume = Ok longer ->
  exists snapshot added,
    transformState state threadId workspace canResume = Ok snapshot /\
    mapMessages more = Ok added /\
    cs_messages longer = cs_messages snapshot ++ added.
Proof.
  intros [Hmap _]%transformState_Ok_inv. simpl in Hmap.
  apply flatMap_app_inv in Hmap as (a & b & Ha & Hb & Hlonger).
  eexists _, b. split; [by apply transformState_Ok|]. done.
Qed.

(** [snapshot_grows_by_appending] on two sample turns. *)
Lemma snapshot_grows_by_appending_witness :
  exists snapshot added,
    transformState (Samples.thread TurnSamples.turn_one) (Some "thread-1")
      "workspace" None = Ok snapshot /\
    mapMessages TurnSamples.turn_two = Ok added /\
    [UserMessage (Some "u1") (JsString "what is this?")
       (Some {| data := JsString Samples.png_url; ext := "image/jpeg" |});
     AssistantMessage (Some "a1") (JsString "A");
     AssistantMessage (Some "a1") (JsString "B");
     ToolMessage (Some "a1") (Some "search") (Some "tc1")
       (JsObject {[ "query" := JsString "foo" ]}) PhaseStart ∅;
     ToolMessage (Some "t1") (Some "search") (Some "tc1")
       (JsString "hits: 3") PhaseEnd ∅;
     AssistantMessage (Some "a2") (JsString "Hello")] =
    cs_messages snapshot ++ added.
Proof.
  exact (snapshot_grows_by_appending (Samples.thread TurnSamples.turn_one)
           TurnSamples.turn_two (Some "thread-1") "workspace" None
           {| cs_messages := _; cs_threadId := Some "thread-1";
              cs_canResume := None; cs_title := Some "Search";
              cs_createdAt := Some 1700000000000%Z;
              cs_parentThreadId := None |}
           eq_refl).
Defined.

(** X3: the assembly fails with the exception of the first raw message
    the adapter raises on; the messages after it are not looked at. *)
Theorem first_failure_is_reported (state : GraphStateAnnotation)
    (before after : list BaseMessage) (message : BaseMessage)
    (out : list ComposerMessage) (e : Exception)
    (threadId : option string) (workspace : string) (canResume : option bool) :
  messages state = before ++ message :: after ->
  mapMessages before = Ok out ->
  mapMessage message = Throw e ->
  transformState state threadId workspace canResume = Throw e.
Proof.
  intros Hsplit Hbefore Hmessage. apply transformState_Throw.
  rewrite Hsplit. unfold mapMessages in *. rewrite flatMap_app, Hbefore.
  simpl. by rewrite Hmessage.
Qed.

(** [first_failure_is_reported]: a plain-string user message before a
    user message without segments. *)
Lemma first_failure_is_reported_witness :
  transformState
    (Samples.thread [Samples.assistant_hello; Samples.user_plain_string;
                     Samples.user "u7" [] ∅])
    None "workspace" None =
  Throw (TypeError "message.content.find is not a function").
Proof.
  apply (first_failure_is_reported
           (Samples.thread [Samples.assistant_hello; Samples.user_plain_string;
                            Samples.user "u7" [] ∅])
           [Samples.assistant_hello] [Samples.user "u7" [] ∅]
           Samples.user_plain_string
           [AssistantMessage (Some "a2") (JsString "Hello")]);
    reflexivity.
Defined.

(** X4: the adapter raises on exactly these raw messages: user messages
    that are not transient and whose content is a plain string, or an
    empty segment list, or a list whose first image segment has no
    [image_url] to read [url] from.  On every other raw message it
    returns. *)
Theorem adapter_raises_iff (message : BaseMessage) :
  (exists e, mapMessage message = Throw e) <->
  msg_class message = HumanMessage /\
  is_transient message = false /\
  user_shape_raises (msg_content message).
Proof.
  split.
  - intros [e He].
    destruct (is_dropped message) eqn:Hdrop.
    { by rewrite is_dropped_Ok_nil in He. }
    destruct (is_dropped_false message Hdrop) as [[Hclass Hkept]|[Hclass|Hclass]].
    + split; [done|]. split; [done|].
      destruct (msg_content message) as [s|blocks] eqn:Hcontent; [done|].
      rewrite (mapMessage_user _ blocks) in He by done. simpl.
      destruct (last blocks) as [c|] eqn:Hlast;
        [|left; by apply last_None].
      right. simpl in He.
      destruct (List.find is_image_block blocks) as [im|]; [|done].
      exists im. split; [done|]. unfold has_image_url.
      by destruct (block_prop im "image_url").
    + by rewrite mapMessage_assistant in He.
    + by rewrite mapMessage_tool_result in He.
  - intros (Hclass & Hkept & Hshape).
    destruct (msg_content message) as [s|blocks] eqn:Hcontent.
    + unfold mapMessage, instanceof. unfold is_transient in Hkept.
      rewrite Hclass, Hkept, Hcontent. simpl. eauto.
    + rewrite (mapMessage_user _ blocks) by done.
      destruct Hshape as [->|(im & Hfind & Hurl)]; [simpl; eauto|].
      destruct (find_Some_last _ _ _ Hfind) as [c ->]. rewrite Hfind. simpl.
      unfold has_image_url in Hurl.
      destruct (block_prop im "image_url"); try done; simpl; eauto.
Qed.

(** X5: raw messages of a class the adapter does not test for, and
    transient user messages, are invisible: removing them from the
    history changes neither the messages of the snapshot nor the
    exception. *)
Theorem dropped_messages_are_invisible (history : list BaseMessage) :
  mapMessages (List.filter (fun m => negb (is_dropped m)) history) =
  mapMessages history.
Proof.
  unfold mapMessages. induction history as [|m history IH]; [done|].
  simpl. destruct (is_dropped m) eqn:Hdrop; simpl.
  - rewrite (is_dropped_Ok_nil m Hdrop), IH. simpl.
    by destruct (flatMap mapMessage history).
  - by rewrite IH.
Qed.

(** X6: the snapshot holds one start ToolMessage per tool invocation of
    the history's [AIMessageChunk]s and one end ToolMessage per tool
    result message; none is lost and none is added. *)
Theorem tool_notice_census (state : GraphStateAnnotation)
    (threadId : option string) (workspace : string) (canResume : option bool)
    (snapshot : ComposerState) :
  transformState state threadId workspace canResume = Ok snapshot ->
  length (List.filter is_tool_start (cs_messages snapshot)) =
    sum_list_with tool_start_count (messages state) /\
  length (List.filter is_tool_end (cs_messages snapshot)) =
    length (List.filter (fun m => instanceof m LangChainToolMessage)
                        (messages state)).
Proof.
  intros [Hmap _]%transformState_Ok_inv. split.
  - apply (census is_tool_start tool_start_count); [|done].
    intros m out. apply tool_start_count_ok.
  - rewrite <- (sum_indicator (fun m => instanceof m LangChainToolMessage)).
    apply (census is_tool_end tool_end_count); [|done].
    intros m out. apply tool_end_count_ok.
Qed.

(** [tool_notice_census] on the sample history. *)
Lemma tool_notice_census_witness :
  exists snapshot,
    transformState (Samples.thread Samples.history) None "workspace" None =
      Ok snapshot /\
    length (List.filter is_tool_start (cs_messages snapshot)) = 1 /\
    length (List.filter is_tool_end (cs_messages snapshot)) = 1.
Proof.
  eexists. split; [reflexivity|].
  exact (tool_notice_census (Samples.thread Samples.history) None "workspace"
           None _ eq_refl).
Defined.

(** X7: the snapshot holds one UserMessage per user message that is not
    transient, and per [AIMessageChunk] one AssistantMessage for string
    content (the empty string included) or one per segment of type
    "text". *)
Theorem transcript_census (state : GraphStateAnnotation)
    (threadId : option string) (workspace : string) (canResume : option bool)
    (snapshot : ComposerState) :
  transformState state threadId workspace canResume = Ok snapshot ->
  length (List.filter is_user_message (cs_messages snapshot)) =
    length (List.filter
              (fun m => instanceof m HumanMessage && negb (is_transient m))
              (messages state)) /\
  length (List.filter is_assistant_message (cs_messages snapshot)) =
    sum_list_with assistant_count (messages state).
Proof.
  intros [Hmap _]%transformState_Ok_inv. split.
  - rewrite <- (sum_indicator
                  (fun m => instanceof m HumanMessage && negb (is_transient m))).
    apply (census is_user_message user_count); [|done].
    intros m out. apply user_count_ok.
  - apply (census is_assistant_message assistant_count); [|done].
    intros m out. apply assistant_count_ok.
Qed.

(** [transcript_census] on the sample history. *)
Lemma transcript_census_witness :
  exists snapshot,
    transformState (Samples.thread Samples.history) None "workspace" None =
      Ok snapshot /\
    length (List.filter is_user_message (cs_messages snapshot)) = 1 /\
    length (List.filter is_assistant_message (cs_messages snapshot)) = 3.
Proof.
  eexists. split; [reflexivity|].
  exact (transcript_census (Samples.thread Samples.history) None "workspace"
           None _ eq_refl).
Defined.

(** X8: every message of the snapshot carries the id of a raw message of
    the history, and that raw message is of the class its kind comes
    from: a UserMessage from a [HumanMessage], an AssistantMessage or a
    start ToolMessage from an [AIMessageChunk], an end ToolMessage from a
    tool result.  No id is invented. *)
Theorem snapshot_ids_come_from_history (state : GraphStateAnnotation)
    (threadId : option string) (workspace : string) (canResume : option bool)
    (snapshot : ComposerState) (cm : ComposerMessage) :
  transformState state threadId workspace canResume = Ok snapshot ->
  cm ∈ cs_messages snapshot ->
  exists message,
    message ∈ messages state /\
    composer_id cm = msg_id message /\
    msg_class message = origin_class cm.
Proof.
  intros [Hmap _]%transformState_Ok_inv. unfold mapMessages in Hmap.
  revert Hmap. generalize (cs_messages snapshot) as out.
  induction (messages state) as [|m history IH]; intros out.
  - intros [= <-] ?%elem_of_nil. done.
  - intros (ys & zs & Hm & Hrest & ->)%flatMap_cons_inv
           [Hin|Hin]%elem_of_app.
    + exists m. split; [apply list_elem_of_here|].
      by apply (mapMessage_ids m ys Hm).
    + destruct (IH zs Hrest Hin) as (m' & Hin' & Hid).
      exists m'. split; [by apply list_elem_of_further|done].
Qed.

(** [snapshot_ids_come_from_history]: the end notice of the sample
    history. *)
Lemma snapshot_ids_come_from_history_witness :
  exists message,
    message ∈ Samples.history /\
    Some "t1" = msg_id message /\
    msg_class message = LangChainToolMessage.
Proof.
  refine (snapshot_ids_come_from_history (Samples.thread Samples.history)
            None "workspace" None
            {| cs_messages := _; cs_threadId := None; cs_canResume := None;
               cs_title := Some "Search";
               cs_createdAt := Some 1700000000000%Z;
               cs_parentThreadId := None |}
            (ToolMessage (Some "t1") (Some "search") (Some "tc1")
               (JsString "hits: 3") PhaseEnd ∅)
            eq_refl _).
  do 4 apply list_elem_of_further. apply list_elem_of_here.
Defined.

(** X9: of several image segments only the first is used: the image of
    the UserMessage is read from the first segment of type "image_url",
    whatever segments follow it. *)
Theorem first_image_wins (message : BaseMessage)
    (pre rest : list MessageContentComplex) (u : ImageUrl) :
  msg_class message = HumanMessage ->
  is_transient message = false ->
  msg_content message =
    ContentArray (pre ++ MessageContentImageUrl u :: rest) ->
  Forall (fun c => is_image_block c = false) pre ->
  exists text,
    mapMessage message =
    Ok [UserMessage (msg_id message) text
          (Some {| data := image_url_data u; ext := "image/jpeg" |})].
Proof.
  intros Hclass Hkept Hcontent Hpre.
  apply (mapMessage_user_image message Hclass Hkept
           (pre ++ MessageContentImageUrl u :: rest)
           (MessageContentImageUrl u)); [done| |].
  - by apply find_app_first.
  - rewrite block_image_url_image.
    destruct u as [url|url detail]; simpl image_url_data.
    + apply image_url_string_url.
    + apply image_url_object_url.
Qed.

(** [first_image_wins]: a PNG before a GIF. *)
Lemma first_image_wins_witness :
  exists text,
    mapMessage TurnSamples.user_two_images =
    Ok [UserMessage (Some "u8") text
          (Some {| data := JsString Samples.png_url; ext := "image/jpeg" |})].
Proof.
  apply (first_image_wins TurnSamples.user_two_images
           [MessageContentText "compare"]
           [MessageContentImageUrl (ImageUrlObject TurnSamples.gif_url (Some "low"));
            MessageContentText "these two"]
           (ImageUrlObject Samples.png_url None)).
  - reflexivity.
  - reflexivity.
  - reflexivity.
  - repeat constructor.
Defined.

(** * The language client *)

(** ** The glob pattern taken from the model's answer *)

(** X10: for a segment list the glob pattern is the text of the first
    segment of type "text"; segments before it of other types and all
    segments after it, further text segments included, are ignored. *)
Theorem textContent_first_text_segment (pre rest : list MessageContentComplex)
    (b : MessageContentComplex) :
  Forall (fun c => is_text_block c = false) pre ->
  is_text_block b = true ->
  textContent (ContentArray (pre ++ b :: rest)) = Ok (block_prop b "text").
Proof.
  intros Hpre Hb. unfold textContent.
  change (fun m => js_is_string "text" (block_prop m "type")) with is_text_block.
  by rewrite (find_app_first is_text_block pre rest b).
Qed.

(** [textContent_first_text_segment] on a sample answer. *)
Lemma textContent_first_text_segment_witness :
  textContent (ContentArray ClientSamples.answer_blocks) =
  Ok (JsString "src/**/*.ts").
Proof.
  apply (textContent_first_text_segment
           [MessageContentRecord {[ "type" := JsString "thinking" ]}]
           [MessageContentText "ignored"]
           (MessageContentText "src/**/*.ts")).
  - repeat constructor.
  - reflexivity.
Defined.

(** X11: reading the glob pattern raises a TypeError exactly when the
    answer is a segment list without any segment of type "text" (the
    empty list included); a plain string never raises. *)
Theorem textContent_raises_iff (content : MessageContent) :
  (exists e, textContent content = Throw e) <->
  exists blocks,
    content = ContentArray blocks /\
    Forall (fun c => is_text_block c = false) blocks.
Proof.
  unfold textContent.
  change (fun m => js_is_string "text" (block_prop m "type")) with is_text_block.
  split.
  - intros [e He]. destruct content as [s|blocks]; [done|].
    exists blocks. split; [done|].
    destruct (List.find is_text_block blocks) as [m|] eqn:Hfind; [done|].
    apply Forall_forall. intros c Hin%list_elem_of_In.
    by apply (List.find_none _ _ Hfind).
  - intros (blocks & -> & Hnone).
    destruct (List.find is_text_block blocks) as [m|] eqn:Hfind; [|eauto].
    apply List.find_some in Hfind as [Hin%list_elem_of_In Htext].
    rewrite Forall_forall in Hnone. by rewrite (Hnone m Hin) in Htext.
Qed.

(** ** File diagnostics *)

Section Includes.

Lemma prefix_spec (needle s : string) :
  String.prefix needle s = true <-> exists post, s = needle +:+ post.
Proof.
  revert needle. induction s as [|d s IH]; intros [|c needle]; simpl.
  - split; [by exists EmptyString|done].
  - split; [done|]. by intros [post ?].
  - split; [by exists (String d s)|done].
  - destruct (ascii_dec c d) as [->|Hne].
    + rewrite IH. split; intros [post Hpost]; exists post.
      * by rewrite Hpost.
      * by injection Hpost.
    + split; [done|]. intros [post Hpost]. injection Hpost as Hd _. congruence.
Qed.

(** [includes] is the substring test. *)
Lemma includes_spec (s needle : string) :
  includes s needle = true <->
  exists pre post, s = pre +:+ needle +:+ post.
Proof.
  induction s as [|c s IH]; cbn [includes].
  - rewrite orb_false_r, prefix_spec. split.
    + intros [post Hpost]. by exists EmptyString, post.
    + intros (pre & post & Hs). destruct pre as [|d pre]; [by exists post|done].
  - rewrite orb_true_iff, prefix_spec, IH. split.
    + intros [[post Hpost]|(pre & post & Hs)].
      * by exists EmptyString, post.
      * exists (String c pre), post. by rewrite Hs.
    + intros (pre & post & Hs). destruct pre as [|d pre].
      * left. by exists post.
      * right. exists pre, post. by injection Hs.
Qed.

End Includes.

Section FileDiagnosticsFacts.

Context {Uri : Type}.
Variable fileUrl : string -> Uri.
Variable getDiagnostics : Uri -> list Diagnostic.
Variable asRelativePath : Uri -> string.

Lemma filter_empty_existsb {A : Type} (p : A -> bool) (l : list A) :
  Nat.eqb (length (List.filter p l)) 0 = negb (existsb p l).
Proof.
  induction l as [|x l IH]; simpl; [done|]. by destruct (p x).
Qed.

Lemma existsb_false_filter {A : Type} (p : A -> bool) (l : list A) :
  existsb p l = false -> List.filter p l = [].
Proof.
  induction l as [|x l IH]; simpl; [done|]. by destruct (p x).
Qed.

(** What one file adds to the report. *)
Lemma diagnostics_step_report (acc : list FileDiagnostic) (uri : Uri) :
  diagnostics_step getDiagnostics asRelativePath acc uri =
  acc ++
  if has_issue getDiagnostics uri
  then [ {| fd_path := asRelativePath uri;
            importErrors :=
              map to_entry (List.filter is_import_issue (getDiagnostics uri));
            lintErrors :=
              map to_entry (List.filter is_linting_error (getDiagnostics uri)) |} ]
  else [].
Proof.
  unfold diagnostics_step, has_issue. rewrite !filter_empty_existsb.
  rewrite <- negb_orb.
  destruct (existsb is_linting_error (getDiagnostics uri)
            || existsb is_import_issue (getDiagnostics uri)); simpl; [done|].
  by rewrite app_nil_r.
Qed.

Lemma diagnostics_loop (uris : list Uri) (acc : list FileDiagnostic) :
  fold_left (diagnostics_step getDiagnostics asRelativePath) uris acc =
  acc ++ fold_left (diagnostics_step getDiagnostics asRelativePath) uris [].
Proof.
  revert acc. induction uris as [|uri uris IH]; intros acc; simpl.
  - by rewrite app_nil_r.
  - rewrite IH, (IH (diagnostics_step _ _ [] uri)).
    rewrite !diagnostics_step_report. simpl. by rewrite app_assoc.
Qed.

Lemma diagnostics_loop_cons (uri : Uri) (uris : list Uri) :
  fold_left (diagnostics_step getDiagnostics asRelativePath) (uri :: uris) [] =
  diagnostics_step getDiagnostics asRelativePath [] uri ++
  fold_left (diagnostics_step getDiagnostics asRelativePath) uris [].
Proof. simpl. apply diagnostics_loop. Qed.

(** X12: the handler reports, in the order of the request, exactly the
    files that have at least one linting error or import issue; files
    without either are skipped, and no reported entry has both lists
    empty. *)
Theorem reported_files_have_issues (composerWebView : bool)
    (filePaths : list string) :
  map fd_path
      (fst (provideFileDiagnostics fileUrl getDiagnostics asRelativePath
              composerWebView filePaths)) =
  map asRelativePath
      (List.filter (has_issue getDiagnostics) (map fileUrl filePaths)) /\
  Forall (fun fd => importErrors fd <> [] \/ lintErrors fd <> [])
         (fst (provideFileDiagnostics fileUrl getDiagnostics asRelativePath
                 composerWebView filePaths)).
Proof.
  unfold provideFileDiagnostics. simpl fst.
  induction (map fileUrl filePaths) as [|uri uris [IHpaths IHall]];
    [by split|].
  rewrite diagnostics_loop_cons, diagnostics_step_report. simpl List.filter.
  destruct (has_issue getDiagnostics uri) eqn:Hissue; simpl; [|by split].
  split; [by rewrite IHpaths|]. constructor; [|done]. simpl.
  unfold has_issue in Hissue. apply orb_true_iff in Hissue as [Hlint|Himport].
  - right. apply existsb_exists in Hlint as (d & Hin & Hd).
    intros Hnil. apply map_eq_nil in Hnil.
    assert (Hd' : In d (List.filter is_linting_error (getDiagnostics uri)))
      by (apply List.filter_In; done).
    by rewrite Hnil in Hd'.
  - left. apply existsb_exists in Himport as (d & Hin & Hd).
    intros Hnil. apply map_eq_nil in Hnil.
    assert (Hd' : In d (List.filter is_import_issue (getDiagnostics uri)))
      by (apply List.filter_In; done).
    by rewrite Hnil in Hd'.
Qed.

(** X13: skipping files loses nothing: read file after file, the
    reported linting errors are the linting errors among all diagnostics
    of the requested files, in order, and likewise for the import
    issues. *)
Theorem no_diagnostic_is_lost (composerWebView : bool)
    (filePaths : list string) :
  concat (map lintErrors
            (fst (provideFileDiagnostics fileUrl getDiagnostics asRelativePath
                    composerWebView filePaths))) =
  map to_entry
      (List.filter is_linting_error
         (concat (map getDiagnostics (map fileUrl filePaths)))) /\
  concat (map importErrors
            (fst (provideFileDiagnostics fileUrl getDiagnostics asRelativePath
                    composerWebView filePaths))) =
  map to_entry
      (List.filter is_import_issue
         (concat (map getDiagnostics (map fileUrl filePaths)))).
Proof.
  unfold provideFileDiagnostics. simpl fst.
  induction (map fileUrl filePaths) as [|uri uris [IHlint IHimport]];
    [by split|].
  rewrite diagnostics_loop_cons, diagnostics_step_report.
  simpl concat. rewrite !List.filter_app, !map_app.
  unfold has_issue.
  destruct (existsb is_linting_error (getDiagnostics uri)) eqn:Hlint;
    destruct (existsb is_import_issue (getDiagnostics uri)) eqn:Himport;
    simpl; rewrite ?IHlint, ?IHimport, ?app_nil_r;
    rewrite ?(existsb_false_filter _ _ Hlint),
            ?(existsb_false_filter _ _ Himport); by split.
Qed.

End FileDiagnosticsFacts.

(** [reported_files_have_issues] and [no_diagnostic_is_lost] have no
    hypothesis; this is the report for three sample files. *)
Example sample_file_report :
  fst (provideFileDiagnostics ClientSamples.resolve ClientSamples.diagnostics_of
         ClientSamples.relative true ["src/a.ts"; "src/b.rs"; "src/c.ts"]) =
  [ {| fd_path := "src/a.ts";
       importErrors := [to_entry ClientSamples.missing_module];
       lintErrors := [to_entry ClientSamples.unused_var;
                      to_entry ClientSamples.missing_module] |};
    {| fd_path := "src/c.ts";
       importErrors := [to_entry ClientSamples.missing_module];
       lintErrors := [to_entry ClientSamples.missing_module] |} ].
Proof. reflexivity. Qed.

(** * The chat input *)

(** ** The canvas size of [compressImage] *)

Section CanvasSize.

Local Open Scope Z_scope.

(** [round_div a b] is within one half of the exact quotient. *)
Lemma round_div_bounds (a b : Z) :
  0 < b ->
  2 * b * round_div a b <= 2 * a + b < 2 * b * round_div a b + 2 * b.
Proof.
  intros Hb. unfold round_div.
  pose proof (Z.div_mod (2 * a + b) (2 * b)) as Hdiv.
  pose proof (Z.mod_pos_bound (2 * a + b) (2 * b)) as Hmod.
  lia.
Qed.

Lemma round_div_nonneg (a b : Z) : 0 <= a -> 0 < b -> 0 <= round_div a b.
Proof.
  intros Ha Hb. pose proof (round_div_bounds a b Hb). nia.
Qed.

Lemma round_div_le (a b c : Z) :
  0 < b -> 2 * a < (2 * c + 1) * b -> round_div a b <= c.
Proof.
  intros Hb Hac. pose proof (round_div_bounds a b Hb). nia.
Qed.

Ltac canvas_cases width height :=
  unfold canvasSize, MAX_WIDTH, MAX_HEIGHT in *;
  destruct (Z.gtb_spec width height);
  [destruct (Z.gtb_spec width 1024) | destruct (Z.gtb_spec height 1024)];
  simpl fst; simpl snd.

(** X14: for an image of any size the canvas is at most 1024 by 1024 and
    no side is larger than the image's; an image that already fits is
    drawn at its own size. *)
Theorem canvas_fits_and_never_grows (width height : Z) :
  is_image_side width -> is_image_side height ->
  0 <= fst (canvasSize width height) <= Z.min width MAX_WIDTH /\
  0 <= snd (canvasSize width height) <= Z.min height MAX_HEIGHT /\
  (width <= MAX_WIDTH -> height <= MAX_HEIGHT ->
   canvasSize width height = (width, height)).
Proof.
  intros [Hw _] [Hh _]. canvas_cases width height.
  - pose proof (round_div_nonneg (height * 1024) width).
    assert (round_div (height * 1024) width <= 1024)
      by (apply round_div_le; lia).
    assert (round_div (height * 1024) width <= height)
      by (apply round_div_le; nia).
    split; [lia|]. split; [lia|]. intros; lia.
  - split; [lia|]. split; [lia|]. done.
  - pose proof (round_div_nonneg (width * 1024) height).
    assert (round_div (width * 1024) height <= 1024)
      by (apply round_div_le; lia).
    assert (round_div (width * 1024) height <= width)
      by (apply round_div_le; nia).
    split; [lia|]. split; [lia|]. intros; lia.
  - split; [lia|]. split; [lia|]. done.
Qed.

(** [canvas_fits_and_never_grows] for a 4000 by 3000 photograph. *)
Lemma canvas_fits_and_never_grows_witness :
  0 <= fst (canvasSize 4000 3000) <= Z.min 4000 MAX_WIDTH /\
  0 <= snd (canvasSize 4000 3000) <= Z.min 3000 MAX_HEIGHT /\
  (4000 <= MAX_WIDTH -> 3000 <= MAX_HEIGHT ->
   canvasSize 4000 3000 = (4000, 3000)).
Proof.
  apply (canvas_fits_and_never_grows 4000 3000); unfold is_image_side; lia.
Defined.

(** X15: an image that does not fit is scaled so that its longer side is
    exactly 1024, and the other side is the proportional length rounded
    to the nearest integer: it is off by at most half a pixel. *)
Theorem canvas_keeps_aspect_ratio (width height : Z) :
  is_image_side width -> is_image_side height ->
  MAX_WIDTH < width \/ MAX_HEIGHT < height ->
  Z.max (fst (canvasSize width height)) (snd (canvasSize width height)) = 1024 /\
  Z.abs (2 * (fst (canvasSize width height) * height -
              snd (canvasSize width height) * width))
  <= Z.max width height.
Proof.
  intros [Hw _] [Hh _] Hbig. canvas_cases width height; try lia.
  - pose proof (round_div_bounds (height * 1024) width ltac:(lia)).
    assert (round_div (height * 1024) width <= 1024)
      by (apply round_div_le; lia).
    split; [lia|]. nia.
  - pose proof (round_div_bounds (width * 1024) height ltac:(lia)).
    assert (round_div (width * 1024) height <= 1024)
      by (apply round_div_le; lia).
    split; [lia|]. nia.
Qed.

(** [canvas_keeps_aspect_ratio] for a 1000 by 3000 image. *)
Lemma canvas_keeps_aspect_ratio_witness :
  Z.max (fst (canvasSize 1000 3000)) (snd (canvasSize 1000 3000)) = 1024 /\
  Z.abs (2 * (fst (canvasSize 1000 3000) * 3000 -
              snd (canvasSize 1000 3000) * 1000))
  <= Z.max 1000 3000.
Proof.
  apply (canvas_keeps_aspect_ratio 1000 3000);
    unfold is_image_side, MAX_WIDTH, MAX_HEIGHT; lia.
Defined.

(** X16: a side of the canvas becomes 0 exactly when the image is more
    than 2048 times as long in one direction as in the other; the canvas
    is then empty although the image is not. *)
Theorem canvas_collapses_iff (width height : Z) :
  is_image_side width -> is_image_side height ->
  0 < width -> 0 < height ->
  fst (canvasSize width height) = 0 \/ snd (canvasSize width height) = 0 <->
  2048 * height < width \/ 2048 * width < height.
Proof.
  intros _ _ Hw Hh. canvas_cases width height.
  - pose proof (round_div_bounds (height * 1024) width ltac:(lia)). split.
    + intros [?|Hzero]; [lia|]. rewrite Hzero in *. lia.
    + intros [Hwide|?]; [|lia]. right.
      pose proof (round_div_nonneg (height * 1024) width).
      assert (round_div (height * 1024) width <= 0)
        by (apply round_div_le; lia).
      lia.
  - lia.
  - pose proof (round_div_bounds (width * 1024) height ltac:(lia)). split.
    + intros [Hzero|?]; [|lia]. rewrite Hzero in *. lia.
    + intros [?|Htall]; [lia|]. left.
      pose proof (round_div_nonneg (width * 1024) height).
      assert (round_div (width * 1024) height <= 0)
        by (apply round_div_le; lia).
      lia.
  - lia.
Qed.

(** [canvas_collapses_iff] for a 4096 by 1 strip. *)
Lemma canvas_collapses_iff_witness :
  fst (canvasSize 4096 1) = 0 \/ snd (canvasSize 4096 1) = 0 <->
  2048 * 1 < 4096 \/ 2048 * 4096 < 1.
Proof.
  apply (canvas_collapses_iff 4096 1); unfold is_image_side; lia.
Defined.

End CanvasSize.

(** ** [dataUrlToFile] *)

Section Strings.

Lemma get_lookup (s : string) (i : nat) :
  String.get i s = String.list_ascii_of_string s !! i.
Proof.
  revert i. induction s as [|c s IH]; intros [|i]; simpl; auto.
Qed.

Lemma length_chars (s : string) :
  length (String.list_ascii_of_string s) = String.length s.
Proof. induction s as [|c s IH]; simpl; auto. Qed.

Lemma append_cons (x : ascii) (a b : string) :
  String x a +:+ b = String x (a +:+ b).
Proof. reflexivity. Qed.

Lemma append_nil (b : string) : EmptyString +:+ b = b.
Proof. reflexivity. Qed.

Lemma chars_app (a b : string) :
  String.list_ascii_of_string (a +:+ b) =
  String.list_ascii_of_string a ++ String.list_ascii_of_string b.
Proof.
  induction a as [|c a IH]; rewrite ?append_cons, ?append_nil; simpl; [done|].
  by rewrite IH.
Qed.

Lemma append_assoc (a b c : string) : (a +:+ b) +:+ c = a +:+ (b +:+ c).
Proof.
  induction a as [|x a IH]; rewrite ?append_cons, ?append_nil; [done|].
  by rewrite IH.
Qed.

(** [split] on a string without the separator, and at its first
    separator. *)
Lemma split_none (sep : ascii) (s : string) :
  Forall (fun c => c <> sep) (String.list_ascii_of_string s) ->
  split sep s = [s].
Proof.
  induction s as [|c s IH]; simpl; [done|].
  intros [Hc Hs]%Forall_cons.
  rewrite (proj2 (Ascii.eqb_neq c sep) Hc). by rewrite (IH Hs).
Qed.

Lemma split_first (sep : ascii) (a b : string) :
  Forall (fun c => c <> sep) (String.list_ascii_of_string a) ->
  split sep (a +:+ String sep b) = a :: split sep b.
Proof.
  induction a as [|c a IH]; rewrite ?append_cons, ?append_nil; simpl.
  - intros _. by rewrite Ascii.eqb_refl.
  - intros [Hc Ha]%Forall_cons.
    rewrite (proj2 (Ascii.eqb_neq c sep) Hc). by rewrite (IH Ha).
Qed.

Lemma split_nonempty (sep : ascii) (s : string) :
  exists first others, split sep s = first :: others.
Proof.
  induction s as [|c s (first & others & IH)]; simpl; [eauto|].
  destruct (Ascii.eqb c sep); [eauto|]. rewrite IH. eauto.
Qed.

(** The lazy group stops at the first [;]. *)
Lemma lazy_until_semicolon_app (group rest : string) :
  Forall (fun c => c <> ","%char /\ c <> ";"%char /\ is_line_terminator c = false)
         (String.list_ascii_of_string group) ->
  lazy_until_semicolon (group +:+ String ";" rest) = Some group.
Proof.
  induction group as [|c group IH]; rewrite ?append_cons, ?append_nil; simpl;
    [done|].
  intros [(_ & Hsemi & Hline) Hgroup]%Forall_cons.
  rewrite (proj2 (Ascii.eqb_neq c ";") Hsemi), Hline.
  by rewrite (IH Hgroup).
Qed.

(** Without a [;] nothing matches. *)
Lemma lazy_until_semicolon_none (s : string) :
  Forall (fun c => c <> ";"%char) (String.list_ascii_of_string s) ->
  lazy_until_semicolon s = None.
Proof.
  induction s as [|c s IH]; simpl; [done|].
  intros [Hc Hs]%Forall_cons.
  rewrite (proj2 (Ascii.eqb_neq c ";") Hc), (IH Hs).
  by destruct (is_line_terminator c).
Qed.

Lemma match_mime_none (s : string) :
  Forall (fun c => c <> ";"%char) (String.list_ascii_of_string s) ->
  match_mime s = None.
Proof.
  induction s as [|c s IH]; simpl; [done|].
  intros [Hc Hs]%Forall_cons.
  rewrite (lazy_until_semicolon_none s Hs), (IH Hs).
  by destruct (Ascii.eqb c ":").
Qed.

End Strings.

Section CopyLoop.

(** The loop [while (n--)] has filled the indices below the start value
    of [n] when it ends, index 0 included. *)
Lemma copy_bytes_prefix (bstr : string) (n : nat) (u8arr : list Byte.byte) :
  n <= String.length bstr ->
  length u8arr = String.length bstr ->
  copy_bytes n bstr u8arr =
  take n (map byte_of_ascii (String.list_ascii_of_string bstr)) ++ drop n u8arr.
Proof.
  revert u8arr. induction n as [|n IH]; intros u8arr Hn Hlen; [done|].
  cbn [copy_bytes]. rewrite IH by (rewrite ?length_insert; lia).
  assert (Hget : map byte_of_ascii (String.list_ascii_of_string bstr) !! n =
                 Some (charCodeAt bstr n)).
  { unfold charCodeAt. rewrite get_lookup.
    change (map byte_of_ascii ?l) with (byte_of_ascii <$> l).
    rewrite list_lookup_fmap.
    destruct (lookup_lt_is_Some_2 (String.list_ascii_of_string bstr) n)
      as [c ->]; [rewrite length_chars; lia|done]. }
  rewrite (take_S_r _ _ _ Hget), <- app_assoc. f_equal.
  rewrite insert_take_drop by lia.
  by rewrite drop_app_length' by (rewrite length_take; lia).
Qed.

Lemma copy_bytes_all (bstr : string) :
  copy_bytes (String.length bstr) bstr (replicate (String.length bstr) Byte.x00) =
  map byte_of_ascii (String.list_ascii_of_string bstr).
Proof.
  rewrite copy_bytes_prefix by (rewrite ?length_replicate; lia).
  rewrite take_ge by (rewrite length_map, length_chars; lia).
  rewrite drop_ge by (rewrite length_replicate; lia).
  by rewrite app_nil_r.
Qed.

End CopyLoop.

Section Base64.

(** Induction over a list three elements at a time. *)
Lemma list_ind3 {A : Type} (P : list A -> Prop) :
  P [] -> (forall x, P [x]) -> (forall x y, P [x; y]) ->
  (forall x y z l, P l -> P (x :: y :: z :: l)) ->
  forall l, P l.
Proof.
  intros Hnil Hone Htwo Hstep l.
  assert (H : P l /\ (forall x, P (x :: l)) /\ (forall x y, P (x :: y :: l))).
  { induction l as [|a l (IH0 & IH1 & IH2)]; [by auto|].
    split; [apply IH1|]. split; [intros x; apply IH2|].
    intros x y. by apply Hstep. }
  apply H.
Qed.

(** The alphabet: every sextet has its own character, which is neither
    whitespace nor [=] nor [,]. *)
Lemma sextet_of_char_of_sextet (s : Sextet) :
  sextet_of_char (char_of_sextet s) = Some s.
Proof. destruct s as [[] [] [] [] [] []]; reflexivity. Qed.

Lemma char_of_sextet_plain (s : Sextet) :
  is_ascii_whitespace (char_of_sextet s) = false /\
  Ascii.eqb (char_of_sextet s) "=" = false /\
  Ascii.eqb (char_of_sextet s) "," = false.
Proof. destruct s as [[] [] [] [] [] []]; repeat split; reflexivity. Qed.

Lemma base64_padding_cases (n : nat) :
  base64_padding n = [] \/ base64_padding n = ["="%char] \/
  base64_padding n = ["="%char; "="%char].
Proof.
  unfold base64_padding. destruct (n mod 3) as [|[|[|m]]]; auto.
Qed.

Lemma base64_padding_step (n : nat) :
  base64_padding (S (S (S n))) = base64_padding n.
Proof.
  unfold base64_padding.
  replace (S (S (S n))) with (n + 1 * 3) by lia.
  by rewrite Nat.Div0.mod_add.
Qed.

Lemma mod4_step (n : nat) : (S (S (S (S n)))) mod 4 = n mod 4.
Proof.
  replace (S (S (S (S n)))) with (n + 1 * 4) by lia.
  by rewrite Nat.Div0.mod_add.
Qed.

(** Decoding undoes encoding on the sextets. *)
Lemma decode_encode_sextets (octets : list ascii) :
  decode_sextets (encode_sextets octets) = octets.
Proof.
  induction octets as [|x|x y|x y z l IH] using list_ind3.
  - done.
  - by destruct x.
  - by destruct x, y.
  - destruct x, y, z. cbn [encode_sextets decode_sextets]. by rewrite IH.
Qed.

Lemma encode_sextets_length (octets : list ascii) :
  length (encode_sextets octets) mod 4 <> 1 /\
  (length (encode_sextets octets) + length (base64_padding (length octets)))
    mod 4 = 0.
Proof.
  induction octets as [|x|x y|x y z l [IH1 IH2]] using list_ind3.
  - done.
  - by destruct x.
  - by destruct x, y.
  - destruct x, y, z. cbn [encode_sextets length].
    rewrite base64_padding_step. cbn [Nat.add]. by rewrite !mod4_step.
Qed.

Lemma filter_all {A : Type} (p : A -> bool) (l : list A) :
  Forall (fun x => p x = true) l -> List.filter p l = l.
Proof.
  induction 1 as [|x l Hx _ IH]; simpl; [done|]. by rewrite Hx, IH.
Qed.

(** Stripping removes the padding and nothing else. *)
Lemma strip_padding_body (body pad : list ascii) :
  Forall (fun c => Ascii.eqb c "=" = false) body ->
  pad = [] \/ pad = ["="%char] \/ pad = ["="%char; "="%char] ->
  strip_padding (body ++ pad) = body.
Proof.
  intros Hbody Hpad. unfold strip_padding. rewrite rev_app_distr.
  assert (Hlast : match rev body with
                  | c :: _ => Ascii.eqb c "=" = false
                  | [] => True
                  end).
  { destruct (rev body) as [|c r] eqn:Hrev; [done|].
    rewrite Forall_forall in Hbody. apply Hbody.
    apply list_elem_of_In, in_rev. rewrite Hrev. by left. }
  destruct Hpad as [-> | [-> | ->]]; simpl.
  - rewrite app_nil_r.
    destruct (rev body) as [|c r]; [done|]. by rewrite Hlast.
  - destruct (rev body) as [|c r] eqn:Hrev.
    + by rewrite <- (rev_involutive body), Hrev.
    + by rewrite Hlast, <- Hrev, rev_involutive.
  - by rewrite rev_involutive.
Qed.

(** [atob] inverts the encoder. *)
Lemma forgiving_base64_decode_base64 (bytes : list Byte.byte) :
  forgiving_base64_decode (base64 bytes) =
  Some (String.string_of_list_ascii (map ascii_of_byte bytes)).
Proof.
  unfold forgiving_base64_decode, base64.
  rewrite String.list_ascii_of_string_of_list_ascii.
  rewrite <- (length_map ascii_of_byte bytes).
  set (octets := map ascii_of_byte bytes).
  set (body := map char_of_sextet (encode_sextets octets)).
  set (pad := base64_padding (length octets)).
  assert (Hbody : Forall (fun c => is_ascii_whitespace c = false /\
                                   Ascii.eqb c "=" = false) body).
  { apply Forall_forall. intros c (s & -> & _)%list_elem_of_fmap.
    destruct (char_of_sextet_plain s) as (? & ? & ?). done. }
  assert (Hpad : pad = [] \/ pad = ["="%char] \/ pad = ["="%char; "="%char])
    by apply base64_padding_cases.
  rewrite filter_all.
  2:{ apply Forall_app. split.
      - eapply Forall_impl; [exact Hbody|]. by intros c [-> _].
      - destruct Hpad as [-> | [-> | ->]]; by repeat constructor. }
  destruct (encode_sextets_length octets) as [Hmod1 Hmod0].
  assert (Hlen : length (body ++ pad) mod 4 = 0).
  { rewrite length_app. unfold body. by rewrite length_map. }
  assert (Hstrip : strip_padding (body ++ pad) = body).
  { apply strip_padding_body; [|done].
    eapply Forall_impl; [exact Hbody|]. by intros c [_ ?]. }
  assert (Hone : Nat.eqb (length body mod 4) 1 = false).
  { apply Nat.eqb_neq. unfold body. by rewrite length_map. }
  rewrite !Hlen. cbn [Nat.eqb]. rewrite !Hstrip, Hone.
  unfold body. rewrite (mapM_fmap_Some _ _ _ sextet_of_char_of_sextet).
  simpl. by rewrite decode_encode_sextets.
Qed.

Lemma base64_no_comma (bytes : list Byte.byte) :
  Forall (fun c => c <> ","%char) (String.list_ascii_of_string (base64 bytes)).
Proof.
  unfold base64. rewrite String.list_ascii_of_string_of_list_ascii.
  apply Forall_app. split.
  - apply Forall_forall. intros c (s & -> & _)%list_elem_of_fmap.
    destruct (char_of_sextet_plain s) as (_ & _ & Hcomma).
    by apply Ascii.eqb_neq.
  - destruct (base64_padding_cases (length bytes)) as [-> | [-> | ->]];
      by repeat constructor.
Qed.

End Base64.

Section DataUrlToFile.

Lemma atob_base64 (bytes : list Byte.byte) :
  atob (Some (base64 bytes)) =
  Returned (String.string_of_list_ascii (map ascii_of_byte bytes)).
Proof. unfold atob. simpl default. by rewrite forgiving_base64_decode_base64. Qed.

Lemma codes_of_octets (bytes : list Byte.byte) :
  map byte_of_ascii
      (String.list_ascii_of_string
         (String.string_of_list_ascii (map ascii_of_byte bytes))) = bytes.
Proof.
  rewrite String.list_ascii_of_string_of_list_ascii, map_map.
  induction bytes as [|b bytes IH]; simpl; [done|].
  by rewrite byte_of_ascii_of_byte, IH.
Qed.

(** The data URL splits at its only comma. *)
Lemma dataUrl_split (mime payload : string) :
  Forall (fun c => c <> ","%char) (String.list_ascii_of_string mime) ->
  Forall (fun c => c <> ","%char) (String.list_ascii_of_string payload) ->
  split "," (dataUrl mime payload) = ["data:" +:+ mime +:+ ";base64"; payload].
Proof.
  intros Hmime Hpayload. unfold dataUrl.
  change (";base64," +:+ payload) with (";base64" +:+ String "," payload).
  rewrite <- (append_assoc mime), <- (append_assoc "data:").
  rewrite split_first, (split_none _ payload Hpayload); [done|].
  rewrite !chars_app. apply Forall_app. split; [by repeat constructor|].
  apply Forall_app. split; [done|by repeat constructor].
Qed.

Lemma match_mime_dataUrl (mime : string) :
  plain_mime mime ->
  match_mime ("data:" +:+ mime +:+ ";base64") = Some mime.
Proof.
  intros [_ Hplain].
  change ("data:" +:+ mime +:+ ";base64")
    with (String "d" (String "a" (String "t" (String "a"
            (String ":" (mime +:+ String ";" "base64")))))).
  cbn [match_mime Ascii.eqb Bool.eqb].
  by rewrite lazy_until_semicolon_app.
Qed.

(** X17: a file written as a base64 data URL comes back unchanged: for
    every byte sequence and every MIME type that is not empty and has no
    comma, semicolon or line break, [dataUrlToFile] applied to
    [data:<mime>;base64,<base64 of the bytes>] builds a File of exactly
    those bytes, with the given name and that MIME type. *)
Theorem dataUrlToFile_round_trip (mime : string) (bytes : list Byte.byte)
    (fileName : string) :
  plain_mime mime ->
  dataUrlToFile (dataUrl mime (base64 bytes)) fileName =
  Returned {| file_bits := bytes; file_name := fileName; file_type := mime |}.
Proof.
  intros Hmime. unfold dataUrlToFile.
  rewrite dataUrl_split;
    [|eapply Forall_impl; [exact (proj2 Hmime)|by intros c (? & _)]
     |apply base64_no_comma].
  simpl lookup. simpl default.
  rewrite (match_mime_dataUrl mime Hmime), atob_base64.
  rewrite copy_bytes_all, codes_of_octets.
  destruct Hmime as [Hne _].
  by rewrite (proj2 (String.eqb_neq mime "") Hne).
Qed.

(** [dataUrlToFile_round_trip] for the first eight bytes of a PNG file. *)
Lemma dataUrlToFile_round_trip_witness :
  dataUrlToFile (dataUrl "image/png" (base64 ChatSamples.png_magic)) "shot.png" =
  Returned {| file_bits := ChatSamples.png_magic; file_name := "shot.png";
              file_type := "image/png" |}.
Proof.
  apply (dataUrlToFile_round_trip "image/png" ChatSamples.png_magic "shot.png").
  split; [discriminate|]. repeat constructor; discriminate.
Defined.

(** X18: a string without a comma is rejected: [arr[1]] is [undefined],
    [atob] reads it as the nine characters "undefined" and throws
    InvalidCharacterError, whatever the string is. *)
Theorem dataUrlToFile_without_comma (dataUrl fileName : string) :
  Forall (fun c => c <> ","%char) (String.list_ascii_of_string dataUrl) ->
  dataUrlToFile dataUrl fileName = InvalidCharacterError.
Proof.
  intros Hcomma. unfold dataUrlToFile. by rewrite (split_none _ _ Hcomma).
Qed.

(** [dataUrlToFile_without_comma] on a URL cut before its payload. *)
Lemma dataUrlToFile_without_comma_witness :
  dataUrlToFile "data:image/png;base64" "shot.png" = InvalidCharacterError.
Proof.
  apply (dataUrlToFile_without_comma "data:image/png;base64" "shot.png").
  repeat constructor; discriminate.
Defined.

(** X19: the MIME type is only found when a semicolon follows it: for a
    data URL whose part before the comma has no semicolon (such as
    [data:image/png,...]) every File that is built is typed
    "image/jpeg". *)
Theorem dataUrlToFile_mime_needs_semicolon (header payload fileName : string)
    (file : File) :
  Forall (fun c => c <> ","%char /\ c <> ";"%char)
         (String.list_ascii_of_string header) ->
  dataUrlToFile (header +:+ String "," payload) fileName = Returned file ->
  file_type file = "image/jpeg".
Proof.
  intros Hheader. unfold dataUrlToFile.
  rewrite split_first
    by (eapply Forall_impl; [exact Hheader|by intros c [? _]]).
  simpl lookup at 1. simpl default.
  rewrite match_mime_none
    by (eapply Forall_impl; [exact Hheader|by intros c [_ ?]]).
  destruct (atob _); [|done]. by intros [= <-].
Qed.

(** [dataUrlToFile_mime_needs_semicolon] on a URL that declares
    text/plain. *)
Lemma dataUrlToFile_mime_needs_semicolon_witness :
  file_type {| file_bits := [Byte.x68; Byte.x69]; file_name := "note.txt";
               file_type := "image/jpeg" |} = "image/jpeg".
Proof.
  apply (dataUrlToFile_mime_needs_semicolon "data:text/plain" "aGk" "note.txt").
  - repeat constructor; discriminate.
  - reflexivity.
Defined.

(** X20: only the text between the first and the second comma is
    decoded; whatever follows a second comma has no effect on the
    result. *)
Theorem dataUrlToFile_ignores_after_second_comma
    (header payload rest fileName : string) :
  Forall (fun c => c <> ","%char) (String.list_ascii_of_string header) ->
  Forall (fun c => c <> ","%char) (String.list_ascii_of_string payload) ->
  dataUrlToFile (header +:+ String "," (payload +:+ String "," rest)) fileName =
  dataUrlToFile (header +:+ String "," payload) fileName.
Proof.
  intros Hheader Hpayload. unfold dataUrlToFile.
  rewrite !(split_first _ header) by done.
  rewrite (split_first _ payload) by done.
  by rewrite (split_none _ payload Hpayload).
Qed.

(** [dataUrlToFile_ignores_after_second_comma] on a sample URL. *)
Lemma dataUrlToFile_ignores_after_second_comma_witness :
  dataUrlToFile "data:image/png;base64,aGk=,trailing" "shot.png" =
  dataUrlToFile "data:image/png;base64,aGk=" "shot.png".
Proof.
  apply (dataUrlToFile_ignores_after_second_comma
           "data:image/png;base64" "aGk=" "trailing" "shot.png");
    repeat constructor; discriminate.
Defined.

(** X21: whenever a File is built, its bytes are the code units of the
    string [atob] returned for [arr[1]], one byte per character and in
    the same order: the loop [while (n--)] fills every index down to 0. *)
Theorem dataUrlToFile_bits_are_char_codes (dataUrl fileName : string)
    (file : File) :
  dataUrlToFile dataUrl fileName = Returned file ->
  exists bstr,
    atob (split "," dataUrl !! 1) = Returned bstr /\
    file_bits file = map byte_of_ascii (String.list_ascii_of_string bstr) /\
    length (file_bits file) = String.length bstr /\
    file_name file = fileName.
Proof.
  unfold dataUrlToFile.
  destruct (atob (split "," dataUrl !! 1)) as [bstr|]; [|done].
  intros [= <-]. exists bstr. simpl.
  rewrite copy_bytes_all, length_map, length_chars. done.
Qed.

(** [dataUrlToFile_bits_are_char_codes] on a sample URL. *)
Lemma dataUrlToFile_bits_are_char_codes_witness :
  exists bstr,
    atob (split "," "data:image/png;base64,aGk=" !! 1) = Returned bstr /\
    [Byte.x68; Byte.x69] = map byte_of_ascii (String.list_ascii_of_string bstr) /\
    length [Byte.x68; Byte.x69] = String.length bstr /\
    "shot.png" = "shot.png".
Proof.
  exact (dataUrlToFile_bits_are_char_codes "data:image/png;base64,aGk=" "shot.png"
           {| file_bits := [Byte.x68; Byte.x69]; file_name := "shot.png";
              file_type := "image/png" |} eq_refl).
Defined.

End DataUrlToFile.

(** ** The key and selection handlers *)

Section Blank.

Lemma Forall_rev_iff {A : Type} (P : A -> Prop) (l : list A) :
  Forall P (rev l) <-> Forall P l.
Proof.
  rewrite !Forall_forall. split; intros H x Hin; apply H.
  - apply list_elem_of_In. apply -> in_rev. by apply list_elem_of_In.
  - apply list_elem_of_In, in_rev. by apply list_elem_of_In.
Qed.

Lemma drop_spaces_nil (l : list ascii) :
  drop_spaces l = [] <-> Forall (fun c => is_js_space c = true) l.
Proof.
  induction l as [|c l IH]; simpl; [by split|].
  destruct (is_js_space c) eqn:Hc.
  - rewrite IH. split; [by constructor|by intros [_ ?]%Forall_cons].
  - split; [done|]. intros [Hc' _]%Forall_cons. congruence.
Qed.

(** What is left after dropping spaces does not start with one. *)
Lemma drop_spaces_all_space (l : list ascii) :
  Forall (fun c => is_js_space c = true) (drop_spaces l) -> drop_spaces l = [].
Proof.
  induction l as [|c l IH]; simpl; [done|].
  destruct (is_js_space c) eqn:Hc; [done|].
  intros [Hc' _]%Forall_cons. congruence.
Qed.

(** [s.trim()] is empty exactly when [s] consists of white space. *)
Lemma trim_empty (s : string) :
  trim s = EmptyString <->
  Forall (fun c => is_js_space c = true) (String.list_ascii_of_string s).
Proof.
  unfold trim. set (l := String.list_ascii_of_string s). split.
  - intros Hempty.
    destruct (rev (drop_spaces (rev (drop_spaces l)))) as [|c r] eqn:Hrev;
      [|done].
    apply (f_equal (@rev ascii)) in Hrev. rewrite rev_involutive in Hrev.
    simpl in Hrev. apply drop_spaces_nil in Hrev.
    apply (proj1 (Forall_rev_iff _ _)) in Hrev.
    apply (proj1 (drop_spaces_nil l)). by apply drop_spaces_all_space.
  - intros Hall. apply drop_spaces_nil in Hall. by rewrite Hall.
Qed.

Lemma blank_app (a b : string) :
  trim (a +:+ b) = EmptyString -> trim b = EmptyString.
Proof.
  rewrite !trim_empty, chars_app. by intros [_ ?]%Forall_app.
Qed.

Lemma eqb_empty_false (s : string) :
  String.eqb s "" = false <-> s <> EmptyString.
Proof. apply String.eqb_neq. Qed.

End Blank.

Section Handlers.

Variable r : Render.

Lemma removeImage_no_submission :
  existsb is_submission (removeImage r) = false.
Proof. unfold removeImage. by destruct (fileInputRef r). Qed.

Lemma handleDropdownSelect_no_submission (item : option FileSearchResult) :
  existsb is_submission (handleDropdownSelect r item) = false.
Proof.
  unfold handleDropdownSelect. destruct item as [item|]; [|done].
  by destruct (negb _).
Qed.

(** X22: when the chat is not loading, the input has a character that is
    not white space or an image is attached, the key is Enter without
    Shift, and no dropdown with selectable files is open, the handler
    submits once: the trimmed input, the paths of the file chips in
    order and the image; then it clears the input and the image.  The
    inner test on the composed message never stops it. *)
Theorem enter_submits (e : KeyboardEvent) :
  loading r = false ->
  trim (inputValue r) <> EmptyString \/ is_Some (selectedImage r) ->
  key e = "Enter" ->
  shiftKey e = false ->
  showDropdown r = false \/ filteredDropDownItems r = [] ->
  handleUserInput r e =
  PreventDefault ::
  OnChatSubmitted (trim (inputValue r)) (map fsr_path (activeFiles r))
    (selectedImage r) ::
  SetInputValue "" :: removeImage r ++ [HandleAutoResize].
Proof.
  intros Hloading Hinput Hkey Hshift Hdropdown. unfold handleUserInput.
  rewrite Hloading, Hkey, Hshift, orb_false_r. simpl String.eqb at 2.
  assert (Hguard :
    String.eqb (trim (inputValue r)) "" &&
    negb (bool_decide (is_Some (selectedImage r))) = false).
  { destruct Hinput as [Htext|Himage].
    - by rewrite (proj2 (eqb_empty_false _) Htext).
    - by rewrite (bool_decide_eq_true_2 _ Himage), andb_false_r. }
  rewrite Hguard. cbn [andb negb].
  assert (Hopen :
    showDropdown r && Nat.ltb 0 (length (filteredDropDownItems r)) = false).
  { destruct Hdropdown as [->| ->]; [done|]. by rewrite andb_false_r. }
  rewrite Hopen.
  match goal with
  | |- context [negb (String.eqb (trim ?m) "") || _] => set (message := m)
  end.
  assert (Hmessage :
    negb (String.eqb (trim message) "")
    || bool_decide (is_Some (selectedImage r)) = true).
  { destruct Hinput as [Htext|Himage].
    - apply orb_true_iff. left. apply negb_true_iff, eqb_empty_false.
      intros Hblank. apply Htext. subst message.
      by apply blank_app, blank_app in Hblank.
    - by rewrite (bool_decide_eq_true_2 _ Himage), orb_true_r. }
  by rewrite Hmessage.
Qed.

(** X23: a chat is submitted by exactly those key events: not while
    loading, not for blank input without an image, not for any key but
    Enter without Shift, and not while a dropdown with selectable files
    is open. *)
Theorem submission_iff (e : KeyboardEvent) :
  existsb is_submission (handleUserInput r e) = true <->
  loading r = false /\
  (trim (inputValue r) <> EmptyString \/ is_Some (selectedImage r)) /\
  key e = "Enter" /\
  shiftKey e = false /\
  (showDropdown r = false \/ filteredDropDownItems r = []).
Proof.
  split.
  - unfold handleUserInput.
    destruct (loading r); [by rewrite orb_true_r|]. rewrite orb_false_r.
    assert (Hinput : String.eqb (trim (inputValue r)) "" &&
                     negb (bool_decide (is_Some (selectedImage r))) = false ->
                     trim (inputValue r) <> EmptyString \/
                     is_Some (selectedImage r)).
    { destruct (String.eqb_spec (trim (inputValue r)) "") as [_|Htext];
        [|by left].
      destruct (bool_decide (is_Some (selectedImage r))) eqn:Himage; [|done].
      intros _. right. by apply bool_decide_eq_true in Himage. }
    destruct (_ && negb (bool_decide _)); [done|].
    specialize (Hinput eq_refl).
    destruct (String.eqb_spec (key e) "Enter") as [Hkey|Hkey].
    + destruct (shiftKey e) eqn:Hshift; cbn [andb negb].
      * by destruct (String.eqb (key e) "ArrowDown"),
                    (String.eqb (key e) "ArrowUp").
      * cbn [existsb is_submission orb].
        destruct (showDropdown r) eqn:Hshow; cbn [andb]; [|by eauto 10].
        destruct (filteredDropDownItems r) as [|d items] eqn:Hitems;
          [by eauto 10|].
        cbn [length Nat.ltb Nat.leb].
        rewrite existsb_app, handleDropdownSelect_no_submission. done.
    + cbn [andb].
      by destruct (String.eqb (key e) "ArrowDown"),
                  (String.eqb (key e) "ArrowUp").
  - intros (Hloading & Hinput & Hkey & Hshift & Hdropdown).
    by rewrite (enter_submits e Hloading Hinput Hkey Hshift Hdropdown).
Qed.

(** X24: selecting a dropdown item never gives the chips two entries
    with the same path: when the chips are set, they are the old chips
    followed by the item, and the item's path was not among theirs. *)
Theorem dropdown_select_keeps_paths_distinct (item : FileSearchResult)
    (chips : list FileSearchResult) :
  NoDup (map fsr_path (activeFiles r)) ->
  SetActiveFiles chips ∈ handleDropdownSelect r (Some item) ->
  chips = activeFiles r ++ [item] /\ NoDup (map fsr_path chips).
Proof.
  intros Hdistinct. unfold handleDropdownSelect.
  destruct (existsb _ (activeFiles r)) eqn:Hseen; cbn [negb].
  - intros Hin. simpl in Hin.
    repeat (apply elem_of_cons in Hin as [[=]|Hin]). by apply elem_of_nil in Hin.
  - intros Hin. simpl in Hin.
    apply elem_of_cons in Hin as [[= ->]|Hin].
    2:{ repeat (apply elem_of_cons in Hin as [[=]|Hin]). by apply elem_of_nil in Hin. }
    split; [done|]. rewrite map_app. apply NoDup_app.
    split; [done|]. split; [|by apply NoDup_singleton].
    intros p Hp ->%list_elem_of_singleton.
    apply list_elem_of_fmap in Hp as (chip & Hpath & Hchip).
    assert (Hex : existsb (fun chip => String.eqb (fsr_path chip) (fsr_path item))
                          (activeFiles r) = true).
    { apply existsb_exists. exists chip. split; [by apply list_elem_of_In|].
      rewrite <- Hpath. apply String.eqb_refl. }
    congruence.
Qed.

End Handlers.

(** [enter_submits] on a sample render. *)
Lemma enter_submits_witness :
  handleUserInput InputSamples.ready InputSamples.enter =
  [PreventDefault;
   OnChatSubmitted "explain this" ["/ws/README.md"] None;
   SetInputValue ""; SetSelectedImage None; SetImagePreview None;
   ClearFileInput; HandleAutoResize].
Proof.
  apply (enter_submits InputSamples.ready InputSamples.enter).
  - reflexivity.
  - left. discriminate.
  - reflexivity.
  - reflexivity.
  - by left.
Defined.

(** [dropdown_select_keeps_paths_distinct] on a sample render. *)
Lemma dropdown_select_keeps_paths_distinct_witness :
  [InputSamples.readme; InputSamples.main_ts] =
    activeFiles InputSamples.typing ++ [InputSamples.main_ts] /\
  NoDup (map fsr_path [InputSamples.readme; InputSamples.main_ts]).
Proof.
  apply (dropdown_select_keeps_paths_distinct InputSamples.typing
           InputSamples.main_ts).
  - repeat constructor; simpl; by intros ?%elem_of_nil.
  - apply list_elem_of_here.
Defined.

Section FocusedItem.

Variable r : Render.




Hypothesis Hloading : loading r = false.
Hypothesis Hinput :
  trim (inputValue r) <> EmptyString \/ is_Some (selectedImage r).
Hypothesis Hshow : showDropdown r = true.
Hypothesis Hitems : filteredDropDownItems r <> [].




End FocusedItem.



(** X27: the arrow keys keep a focus that is on an item on an item: every
    update of the focused index that the key handler issues maps an
    index of [allDropdownItems] to an index of [allDropdownItems]. *)
Theorem arrows_stay_in_range (r : Render) (e : KeyboardEvent)
    (update : Z -> Z) (i : Z) :
  UpdateFocusedDropdownIndex update ∈ handleUserInput r e ->
  (0 <= i < Z.of_nat (length (allDropdownItems r)))%Z ->
  (0 <= update i < Z.of_nat (length (allDropdownItems r)))%Z.
Proof.
  unfold handleUserInput.
  destruct (_ || loading r); [by intros ?%elem_of_nil|].
  destruct (String.eqb (key e) "Enter" && negb (shiftKey e)).
  { intros [[=]|Hin]%elem_of_cons. exfalso.
    destruct (showDropdown r && _).
    - apply elem_of_app in Hin as [Hin|Hin].
      + unfold handleDropdownSelect in Hin.
        destruct (item_at _ _); [|by apply elem_of_nil in Hin].
        apply elem_of_app in Hin as [Hin|Hin].
        * destruct (negb _); [|by apply elem_of_nil in Hin].
          repeat (apply elem_of_cons in Hin as [[=]|Hin]).
          by apply elem_of_nil in Hin.
        * repeat (apply elem_of_cons in Hin as [[=]|Hin]).
          by apply elem_of_nil in Hin.
      + apply list_elem_of_singleton in Hin. done.
    - destruct (negb _ || _); [|by apply elem_of_nil in Hin].
      unfold removeImage in Hin.
      repeat (apply elem_of_cons in Hin as [[=]|Hin]).
      apply elem_of_app in Hin as [Hin|Hin];
        [destruct (fileInputRef r)|];
        repeat (apply elem_of_cons in Hin as [[=]|Hin]);
        by apply elem_of_nil in Hin. }
  destruct (String.eqb (key e) "ArrowDown").
  { intros [[=]|Hin]%elem_of_cons.
    apply list_elem_of_singleton in Hin. injection Hin as ->. lia. }
  destruct (String.eqb (key e) "ArrowUp").
  { intros [[=]|Hin]%elem_of_cons.
    apply list_elem_of_singleton in Hin. injection Hin as ->. lia. }
  by intros ?%elem_of_nil.
Qed.

(** [arrows_stay_in_range]: ArrowDown on the last of two items. *)
Lemma arrows_stay_in_range_witness :
  (0 <= Z.min (1 + 1) (2 - 1) < 2)%Z.
Proof.
  apply (arrows_stay_in_range InputSamples.typing
           {| key := "ArrowDown"; shiftKey := false |}
           (fun prevIndex => Z.min (prevIndex + 1) (2 - 1)) 1).
  - apply list_elem_of_further, list_elem_of_here.
  - simpl. lia.
Defined.

Section InputChange.

Lemma split_spaces_nonempty (after_space : bool) (l : list ascii) :
  split_spaces after_space l <> [].
Proof.
  revert after_space. induction l as [|c l IH]; intros after_space; simpl;
    [done|].
  destruct (is_js_space c).
  - destruct after_space; [apply IH|done].
  - specialize (IH false). by destruct (split_spaces false l).
Qed.

(** A text with a separator at its end has at least two pieces. *)
Lemma split_spaces_two (l : list ascii) (c : ascii) :
  is_js_space c = true ->
  exists p q rest, split_spaces false (l ++ [c]) = p :: q :: rest.
Proof.
  intros Hc. induction l as [|x l (p & q & rest & IH)]; simpl.
  - rewrite Hc. eauto.
  - destruct (is_js_space x).
    + pose proof (split_spaces_nonempty true (l ++ [c])) as Hne.
      destruct (split_spaces true (l ++ [c])) as [|p' ps]; [done|]. eauto.
    + rewrite IH. eauto.
Qed.

(** After a trailing separator the last piece is empty. *)
Lemma split_spaces_trailing (after_space : bool) (l : list ascii) (c : ascii) :
  is_js_space c = true ->
  last (split_spaces after_space (l ++ [c])) = Some EmptyString.
Proof.
  intros Hc. revert after_space.
  induction l as [|x l IH]; intros after_space; simpl.
  - rewrite Hc. by destruct after_space.
  - destruct (is_js_space x).
    + destruct after_space; [apply IH|].
      specialize (IH true).
      pose proof (split_spaces_nonempty true (l ++ [c])) as Hne.
      destruct (split_spaces true (l ++ [c])) as [|p ps]; [done|].
      by rewrite last_cons_cons.
    + specialize (IH false).
      destruct (split_spaces_two l c Hc) as (p & q & rest & Hsplit).
      rewrite Hsplit in IH |- *.
      by rewrite last_cons_cons in IH |- *.
Qed.

(** X28: as soon as the text ends with a white-space character the file
    dropdown is hidden and no file search is requested, whatever was
    typed before. *)
Theorem space_hides_dropdown (value : string) (c : ascii) :
  is_js_space c = true ->
  handleInputChange (value +:+ String c EmptyString) =
  [SetInputValue (value +:+ String c EmptyString); SetShowDropdown false].
Proof.
  intros Hc. unfold handleInputChange, words_of.
  rewrite chars_app. simpl String.list_ascii_of_string at 2.
  by rewrite (split_spaces_trailing _ _ _ Hc).
Qed.

(** [space_hides_dropdown] after a file name was being typed. *)
Lemma space_hides_dropdown_witness :
  handleInputChange "explain @ma " =
  [SetInputValue "explain @ma "; SetShowDropdown false].
Proof.
  apply (space_hides_dropdown "explain @ma" " "). reflexivity.
Defined.

End InputChange.
